(** * OpenWebUI SSH connection manager: a shallow embedding of [example_tool.py]

    The tool wraps three libraries (paramiko, socket, requests) behind four
    coroutines of the class [Tools]: [get_ip_info], [test_ssh_connection],
    [execute_ssh_command] and [pipe].  Every coroutine is one [try] block with
    an [except Exception] handler.

    The embedding is a state-and-exception monad over a record [State] that
    holds the [Tools] instance's only attribute ([active_connections]), the
    paramiko clients created so far, and the trace of library calls.  What the
    outside world answers (DNS, HTTP, key files, the SSH server, environment
    variables) is supplied by a record [Env] of oracles, each of which sees the
    trace so far, so that answers may change from one call to the next.

    Conventions.  A Python [str] is a [string] holding its UTF-8 encoding;
    [bytes] are [list byte].  A Python [int] is a [Z].  A [dict] is an
    association list in insertion order, as [json.dumps] prints it.  An
    exception is its class name and its text.  The coroutines are given
    twice: in the section [Tools] every exception is taken to derive from
    [Exception], which is what the wrapped library calls raise when they
    fail; the module [Guarded] has the same coroutines with the class test
    of [except Exception], so that a [KeyboardInterrupt] goes through.  The
    two agree where nothing outside [Exception] is raised. *)

From Stdlib Require Import ZArith NArith List String Ascii Lia Bool.
From Stdlib.Strings Require Import Byte.
From stdpp Require Import base strings gmap list pretty.

Local Open Scope Z_scope.

(** ** Text: the part of Python's [str] the tool uses *)

Module Text.

Definition code (a : ascii) : N := N_of_ascii a.

Definition quote : string := String (ascii_of_nat 34) EmptyString.
Definition backslash : string := String (ascii_of_nat 92) EmptyString.

(** [str.lower()], on the ASCII letters.  The tool only ever asks whether
    the lowered text contains "ip", "ssh" or "test"; no character outside
    ASCII lowers to a text in which one of these letters is followed by the
    next one, and bytes above 127 are left alone here, so the membership
    tests agree with Python's on every UTF-8 text. *)
Definition lower_ascii (a : ascii) : ascii :=
  let n := code a in
  if ((65 <=? n) && (n <=? 90))%N then ascii_of_N (n + 32) else a.

Fixpoint lower (s : string) : string :=
  match s with
  | EmptyString => EmptyString
  | String a r => String (lower_ascii a) (lower r)
  end.

Fixpoint prefix (p s : string) : bool :=
  match p, s with
  | EmptyString, _ => true
  | String a p', String b s' => Ascii.eqb a b && prefix p' s'
  | String _ _, EmptyString => false
  end.

(** [needle in hay] *)
Fixpoint contains (needle hay : string) : bool :=
  prefix needle hay ||
  match hay with
  | EmptyString => false
  | String _ r => contains needle r
  end.

Fixpoint string_rev_app (s acc : string) : string :=
  match s with
  | EmptyString => acc
  | String a r => string_rev_app r (String a acc)
  end.

(** [s.split(sep)] for a non-empty separator: [cur] is the piece being
    read, reversed; [skip] counts the bytes of a separator just matched
    that are still to be passed over. *)
Fixpoint split_go (sep : string) (skip : nat) (cur : string) (s : string)
  : list string :=
  match s with
  | EmptyString => [string_rev_app cur EmptyString]
  | String a r =>
      match skip with
      | S k => split_go sep k cur r
      | O =>
          if prefix sep s
          then string_rev_app cur EmptyString
                 :: split_go sep (String.length sep - 1) EmptyString r
          else split_go sep O (String a cur) r
      end
  end.

Definition split (sep s : string) : list string :=
  split_go sep O EmptyString s.

(** The characters of a UTF-8 text, each with all its bytes: a byte
    [10xxxxxx] continues the character begun before it. *)
Definition is_continuation (a : ascii) : bool :=
  ((128 <=? code a) && (code a <=? 191))%N.

Definition starts_with_continuation (c : string) : bool :=
  match c with
  | String a _ => is_continuation a
  | EmptyString => false
  end.

Fixpoint chars (s : string) : list string :=
  match s with
  | EmptyString => []
  | String a r =>
      match chars r with
      | c :: cs =>
          if starts_with_continuation c
          then String a c :: cs
          else String a EmptyString :: c :: cs
      | [] => [String a EmptyString]
      end
  end.

(** The code point of one character. *)
Definition codepoint (c : string) : N :=
  match List.map code (list_ascii_of_string c) with
  | [b0] => b0
  | [b0; b1] => (b0 mod 32) * 64 + b1 mod 64
  | [b0; b1; b2] => ((b0 mod 16) * 64 + b1 mod 64) * 64 + b2 mod 64
  | [b0; b1; b2; b3] =>
      (((b0 mod 8) * 64 + b1 mod 64) * 64 + b2 mod 64) * 64 + b3 mod 64
  | _ => 0
  end%N.

(** [str.isspace()] for one character: the code points Python's
    [str.strip()] removes. *)
Definition is_space (c : string) : bool :=
  let n := codepoint c in
  ((9 <=? n) && (n <=? 13) || (28 <=? n) && (n <=? 32)
   || (n =? 133) || (n =? 160) || (n =? 5760)
   || (8192 <=? n) && (n <=? 8202)
   || (n =? 8232) || (n =? 8233) || (n =? 8239) || (n =? 8287)
   || (n =? 12288))%N.

Fixpoint drop_spaces (cs : list string) : list string :=
  match cs with
  | c :: r => if is_space c then drop_spaces r else cs
  | [] => []
  end.

Definition join (cs : list string) : string :=
  fold_right String.append EmptyString cs.

Definition rstrip (s : string) : string :=
  join (rev (drop_spaces (rev (chars s)))).

(** [s.strip()]: whitespace goes from both ends. *)
Definition strip (s : string) : string :=
  join (rev (drop_spaces (rev (drop_spaces (chars s))))).

(** Well-formed UTF-8, as the strict codec accepts it (no overlong forms,
    no surrogates, nothing above U+10FFFF). *)
Definition cont (b : N) : bool := ((128 <=? b) && (b <=? 191))%N.
Definition between (lo b hi : N) : bool := ((lo <=? b) && (b <=? hi))%N.

Fixpoint utf8_valid (l : list N) : bool :=
  match l with
  | [] => true
  | b0 :: t0 =>
      if (b0 <=? 127)%N then utf8_valid t0 else
      match t0 with
      | [] => false
      | b1 :: t1 =>
          if between 194 b0 223 then cont b1 && utf8_valid t1 else
          match t1 with
          | [] => false
          | b2 :: t2 =>
              if between 224 b0 239 then
                (if (b0 =? 224)%N then between 160 b1 191
                 else if (b0 =? 237)%N then between 128 b1 159
                 else cont b1)
                && cont b2 && utf8_valid t2
              else
              match t2 with
              | [] => false
              | b3 :: t3 =>
                  between 240 b0 244
                  && (if (b0 =? 240)%N then between 144 b1 191
                      else if (b0 =? 244)%N then between 128 b1 143
                      else cont b1)
                  && cont b2 && cont b3 && utf8_valid t3
              end
          end
      end
  end.

End Text.

(** ** Values: what a JSON body and the result dictionaries are made of *)

#[warnings="-register-all"]
Inductive value : Type :=
| VNone
| VBool (b : bool)
| VInt (n : Z)
| VStr (s : string)
| VList (l : list value)
| VDict (d : list (string * value)).

Abbreviation dict := (list (string * value)).

Definition type_name (v : value) : string :=
  match v with
  | VNone => "NoneType"
  | VBool _ => "bool"
  | VInt _ => "int"
  | VStr _ => "str"
  | VList _ => "list"
  | VDict _ => "dict"
  end.

(** Python's truth value, as [if x:] and [not x] take it. *)
Definition truthy (v : value) : bool :=
  match v with
  | VNone => false
  | VBool b => b
  | VInt n => negb (n =? 0)
  | VStr s => negb (String.eqb s "")
  | VList l => match l with [] => false | _ => true end
  | VDict d => match d with [] => false | _ => true end
  end.

Definition truthy_opt (o : option string) : bool :=
  match o with
  | Some s => negb (String.eqb s "")
  | None => false
  end.

(** [d.get(k, default)] *)
Fixpoint dict_get (d : dict) (k : string) (default : value) : value :=
  match d with
  | [] => default
  | (k', v) :: r => if String.eqb k' k then v else dict_get r k default
  end.

Fixpoint dict_has (d : dict) (k : string) : bool :=
  match d with
  | [] => false
  | (k', _) :: r => String.eqb k' k || dict_has r k
  end.

(** [d[k] = v]: an existing key keeps its place, a new one goes last. *)
Fixpoint dict_set (d : dict) (k : string) (v : value) : dict :=
  match d with
  | [] => [(k, v)]
  | (k', v') :: r =>
      if String.eqb k' k then (k', v) :: r else (k', v') :: dict_set r k v
  end.

(** *** [json.dumps] with its defaults ([ensure_ascii], ", " and ": ") *)

Module Json.

Definition hex_digit (n : N) : ascii :=
  if (n <? 10)%N then ascii_of_N (48 + n) else ascii_of_N (87 + n).

Definition hex4 (n : N) : string :=
  String (hex_digit ((n / 4096) mod 16))
    (String (hex_digit ((n / 256) mod 16))
       (String (hex_digit ((n / 16) mod 16))
          (String (hex_digit (n mod 16)) EmptyString))).

Definition u_escape (n : N) : string := Text.backslash +:+ "u" +:+ hex4 n.

Definition escape_char (c : string) : string :=
  let n := Text.codepoint c in
  if (n =? 34)%N then Text.backslash +:+ Text.quote
  else if (n =? 92)%N then Text.backslash +:+ Text.backslash
  else if (n =? 10)%N then Text.backslash +:+ "n"
  else if (n =? 13)%N then Text.backslash +:+ "r"
  else if (n =? 9)%N then Text.backslash +:+ "t"
  else if (n =? 8)%N then Text.backslash +:+ "b"
  else if (n =? 12)%N then Text.backslash +:+ "f"
  else if ((32 <=? n) && (n <=? 126))%N then c
  else if (n <? 65536)%N then u_escape n
  else u_escape (55296 + (n - 65536) / 1024)
         +:+ u_escape (56320 + (n - 65536) mod 1024).

Definition encode_string (s : string) : string :=
  Text.quote +:+ Text.join (List.map escape_char (Text.chars s)) +:+ Text.quote.

Definition encode_int (n : Z) : string :=
  pretty n.

Fixpoint dumps (v : value) : string :=
  match v with
  | VNone => "null"
  | VBool true => "true"
  | VBool false => "false"
  | VInt n => encode_int n
  | VStr s => encode_string s
  | VList l =>
      "[" +:+
      (fix items (l : list value) : string :=
         match l with
         | [] => ""
         | x :: r =>
             dumps x +:+ match r with [] => "" | _ => ", " +:+ items r end
         end) l
      +:+ "]"
  | VDict d =>
      "{" +:+
      (fix members (d : dict) : string :=
         match d with
         | [] => ""
         | (k, x) :: r =>
             encode_string k +:+ ": " +:+ dumps x
             +:+ match r with [] => "" | _ => ", " +:+ members r end
         end) d
      +:+ "}"
  end.

End Json.

(** ** Exceptions *)

(** An exception is its class name and the text [str(e)] gives. *)
Record Exn : Type := mkExn { exn_class : string; exn_text : string }.

Definition str_exn (e : Exn) : string := exn_text e.

Inductive result (A : Type) : Type :=
| Ok (a : A)
| Raise (e : Exn).
Arguments Ok {A} a.
Arguments Raise {A} e.

Definition AttributeError (v : value) (attr : string) : Exn :=
  mkExn "AttributeError"
    ("'" +:+ type_name v +:+ "' object has no attribute '" +:+ attr +:+ "'").

Definition NotSubscriptable (v : value) : Exn :=
  mkExn "TypeError" ("'" +:+ type_name v +:+ "' object is not subscriptable").

Definition IndexError : Exn := mkExn "IndexError" "list index out of range".

(** [v.get(k, default)] on a value of any type. *)
Definition py_get (v : value) (k : string) (default : value) : result value :=
  match v with
  | VDict d => Ok (dict_get d k default)
  | _ => Raise (AttributeError v "get")
  end.

(** [v[-1]] on a value whose truth value is true.  The last character of a
    text is given as a text; a dictionary has no key [-1] since its keys are
    texts. *)
Definition py_last (v : value) : result value :=
  match v with
  | VList l =>
      match last (A:=value) l with
      | Some x => Ok x
      | None => Raise IndexError
      end
  | VStr s =>
      match last (Text.chars s) with
      | Some c => Ok (VStr c)
      | None => Raise (mkExn "IndexError" "string index out of range")
      end
  | VDict _ => Raise (mkExn "KeyError" "-1")
  | _ => Raise (NotSubscriptable v)
  end.

(** [v.lower()] *)
Definition py_lower (v : value) : result string :=
  match v with
  | VStr s => Ok (Text.lower s)
  | _ => Raise (AttributeError v "lower")
  end.

(** [v.split(sep)[1].strip()] *)
Definition py_split_second_strip (v : value) (sep : string) : result string :=
  match v with
  | VStr s =>
      match Text.split sep s with
      | _ :: piece :: _ => Ok (Text.strip piece)
      | _ => Raise IndexError
      end
  | _ => Raise (AttributeError v "split")
  end.

(** ** The outside world *)

(** How [client.connect] is asked to authenticate: [pkey=key] or
    [password=...] (which may be [None]). *)
Inductive auth : Type :=
| PKey (key : string)
| Password (pw : option string).

(** One entry per call into a library. *)
Inductive event : Type :=
| EvResolveHostname
| EvHttpGet (url : string) (timeout : Z)
| EvLoadKey (path : string)
| EvNewClient (c : nat)
| EvConnect (c : nat) (hostname : string) (port : Z) (username : string)
    (a : auth) (timeout : Z)
| EvExec (c : nat) (command : string)
| EvClose (c : nat)
| EvLog (text : string).

(** A paramiko client: whether it holds a transport, and how many times a
    transport of its has been released. *)
Inductive transport : Type := NoTransport | Active | Released.

Record client : Type := mkClient { transport_of : transport; releases : nat }.

(** [client.connect] returns, or raises; when it raises after the transport
    was started (a rejected credential, say) the transport stays up. *)
Inductive connect_answer : Type :=
| Connected
| ConnectRaises (e : Exn) (started : bool).

(** What [exec_command] hands back: the results of reading [stdout] and
    [stderr] to the end. *)
Definition streams : Type := (result (list byte) * result (list byte))%type.

Record Env : Type := mkEnv {
  (** [socket.gethostbyname(socket.gethostname())] *)
  resolve_hostname : list event -> result string;
  (** [requests.get(url, timeout=t).json()] *)
  http_get_json : list event -> string -> Z -> result value;
  (** [paramiko.RSAKey.from_private_key_file(path)] *)
  load_key : list event -> string -> result string;
  (** [client.connect(hostname, port, username, pkey | password, timeout)] *)
  ssh_connect : list event -> string -> Z -> string -> auth -> Z -> connect_answer;
  (** [client.exec_command(command)] on an active transport *)
  ssh_exec : list event -> string -> result streams;
  (** the text of the [UnicodeDecodeError] for bytes that are not UTF-8 *)
  codec_diagnostic : list byte -> string;
  (** [os.getenv(name)] *)
  getenv : string -> option string
}.

(** ** State and the monad *)

Record State : Type := mkState {
  active_connections : gmap string nat;   (* self.active_connections *)
  clients : list client;                  (* every SSHClient() so far *)
  trace : list event
}.

(** [Tools.__init__] *)
Definition init : State :=
  {| active_connections := ∅; clients := []; trace := [] |}.

Definition M (A : Type) : Type := State -> result A * State.

Definition ret {A} (a : A) : M A := fun s => (Ok a, s).

Definition bind {A B} (m : M A) (k : A -> M B) : M B :=
  fun s => match m s with
           | (Ok a, s') => k a s'
           | (Raise e, s') => (Raise e, s')
           end.

(** A pure step that may raise. *)
Definition lift {A} (r : result A) : M A := fun s => (r, s).

(** [try: body  except Exception as e: handler(e)], for exceptions that
    derive from [Exception]: every [Exn] is caught.  The handler with the
    class test is [except_Exception], further down. *)
Definition try_except {A} (body : M A) (handler : Exn -> M A) : M A :=
  fun s => match body s with
           | (Ok a, s') => (Ok a, s')
           | (Raise e, s') => handler e s'
           end.

Declare Scope py_scope.
Delimit Scope py_scope with py.
Notation "x <- m ;; k" := (bind m (fun x => k))
  (at level 100, m at next level, right associativity) : py_scope.
Notation "m ;; k" := (bind m (fun _ => k))
  (at level 100, right associativity) : py_scope.

Definition record_event (e : event) (s : State) : State :=
  {| active_connections := active_connections s;
     clients := clients s;
     trace := trace s ++ [e] |}.

Definition set_clients (cs : list client) (s : State) : State :=
  {| active_connections := active_connections s;
     clients := cs;
     trace := trace s |}.

Definition activate (cl : client) : client :=
  {| transport_of := Active; releases := releases cl |}.

(** Modelled from the spec: [close] is paramiko's [SSHClient.close], which
    the repository calls and does not define.  "Idempotent: closing an
    already-closed session is a no-op, never an error": an active transport
    is released, once; a client without an active transport stays as it
    is. *)
Definition close_client (cl : client) : client :=
  match transport_of cl with
  | Active => {| transport_of := Released; releases := S (releases cl) |}
  | _ => cl
  end.

Section Library.

Variable E : Env.

Definition socket_gethostbyname_hostname : M string :=
  fun s => (resolve_hostname E (trace s), record_event EvResolveHostname s).

Definition requests_get_json (url : string) (timeout : Z) : M value :=
  fun s => (http_get_json E (trace s) url timeout,
            record_event (EvHttpGet url timeout) s).

Definition logger_error (text : string) : M unit :=
  fun s => (Ok tt, record_event (EvLog text) s).

Definition os_getenv (name : string) : M (option string) :=
  fun s => (Ok (getenv E name), s).

Definition RSAKey_from_private_key_file (path : string) : M string :=
  fun s => (load_key E (trace s) path, record_event (EvLoadKey path) s).

(** [paramiko.SSHClient()]: a new client, with no transport. *)
Definition SSHClient_new : M nat :=
  fun s =>
    let c := length (clients s) in
    (Ok c, record_event (EvNewClient c)
             (set_clients (clients s ++ [mkClient NoTransport 0]) s)).

(** [client.set_missing_host_key_policy(AutoAddPolicy())] changes nothing
    that is modelled. *)
Definition set_missing_host_key_policy (c : nat) : M unit := ret tt.

Definition SSHClient_connect (c : nat) (hostname : string) (port : Z)
    (username : string) (a : auth) (timeout : Z) : M unit :=
  fun s =>
    let s1 := record_event (EvConnect c hostname port username a timeout) s in
    match ssh_connect E (trace s) hostname port username a timeout with
    | Connected => (Ok tt, set_clients (alter activate c (clients s1)) s1)
    | ConnectRaises e started =>
        (Raise e,
         if started then set_clients (alter activate c (clients s1)) s1
         else s1)
    end.

(** [client.exec_command(command)]; paramiko refuses a client whose
    transport is not active. *)
Definition SSHClient_exec_command (c : nat) (command : string) : M streams :=
  fun s =>
    let s1 := record_event (EvExec c command) s in
    match transport_of <$> clients s !! c with
    | Some Active => (ssh_exec E (trace s) command, s1)
    | _ => (Raise (mkExn "SSHException" "SSH session not active"), s1)
    end.

Definition SSHClient_close (c : nat) : M unit :=
  fun s =>
    let s1 := record_event (EvClose c) s in
    (Ok tt, set_clients (alter close_client c (clients s1)) s1).

(** [stream.read().decode()]: reading may raise, and so may the strict
    UTF-8 codec. *)
Definition read_decode (r : result (list byte)) : result string :=
  match r with
  | Ok b =>
      if Text.utf8_valid (List.map Byte.to_N b)
      then Ok (string_of_list_byte b)
      else Raise (mkExn "UnicodeDecodeError" (codec_diagnostic E b))
  | Raise e => Raise e
  end.

End Library.

(** ** The tool *)

(** [class SSHConnection(BaseModel)]: pydantic checks the types of the fields
    and nothing else, so any text is a host and any integer a port. *)
Record SSHConnection : Type := mkSSHConnection {
  host : string;
  port : Z;
  username : string;
  password : option string;
  private_key : option string;
  timeout : Z
}.

(** [SSHConnection(host=.., username=.., password=..)] with the defaults of
    the other fields. *)
Definition SSHConnection_default (h u : string) (pw : option string)
  : SSHConnection :=
  {| host := h; port := 22; username := u; password := pw;
     private_key := None; timeout := 10 |}.

Definition success_status : value := VStr "success".
Definition error_status : value := VStr "error".

(** [{"status": "error", "message": str(e)}] *)
Definition error_result (e : Exn) : dict :=
  [("status", error_status); ("message", VStr (str_exn e))].

(** [{"role": "assistant", "content": text}] *)
Definition assistant (text : string) : value :=
  VDict [("role", VStr "assistant"); ("content", VStr text)].

Definition ipify_url : string := "https://api.ipify.org?format=json".

(** [body["messages"].append(m)] *)
Definition append_message (body : dict) (m : value) : result dict :=
  if dict_has body "messages" then
    match dict_get body "messages" VNone with
    | VList l => Ok (dict_set body "messages" (VList (l ++ [m])))
    | v => Raise (AttributeError v "append")
    end
  else Raise (mkExn "KeyError" "'messages'").

Section Tools.

Variable E : Env.

Local Open Scope py_scope.

(** [Tools.get_ip_info]: the statements under [try:], then the whole
    coroutine. *)
Definition get_ip_info_body : M dict :=
  private_ip <- socket_gethostbyname_hostname E ;;
  response <- requests_get_json E ipify_url 5 ;;
  public_ip <- lift (py_get response "ip" (VStr "Unknown")) ;;
  ret [("status", success_status);
       ("private_ip", VStr private_ip);
       ("public_ip", public_ip)].

Definition get_ip_info : M dict :=
  try_except get_ip_info_body
    (fun e =>
       logger_error ("IP retrieval failed: " +:+ str_exn e) ;;
       ret (error_result e)).

(** The [if connection.private_key: ... else: ...] statement, which
    [test_ssh_connection] (lines 80-96) and [execute_ssh_command]
    (lines 109-125) both contain, word for word. *)
Definition connect_client (c : nat) (connection : SSHConnection) : M unit :=
  let by_password :=
    SSHClient_connect E c (host connection) (port connection)
      (username connection) (Password (password connection))
      (timeout connection) in
  match private_key connection with
  | Some path =>
      if truthy (VStr path) then
        key <- RSAKey_from_private_key_file E path ;;
        SSHClient_connect E c (host connection) (port connection)
          (username connection) (PKey key) (timeout connection)
      else by_password
  | None => by_password
  end.

(** [Tools.test_ssh_connection] *)
Definition test_ssh_connection_body (connection : SSHConnection) : M dict :=
  c <- SSHClient_new ;;
  set_missing_host_key_policy c ;;
  connect_client c connection ;;
  SSHClient_close c ;;
  ret [("status", success_status);
       ("message", VStr "SSH connection successful")].

Definition test_ssh_connection (connection : SSHConnection) : M dict :=
  try_except (test_ssh_connection_body connection)
    (fun e => ret (error_result e)).

(** [Tools.execute_ssh_command] *)
Definition execute_ssh_command_body (connection : SSHConnection)
    (command : string) : M dict :=
  c <- SSHClient_new ;;
  set_missing_host_key_policy c ;;
  connect_client c connection ;;
  io <- SSHClient_exec_command E c command ;;
  out <- lift (read_decode E (fst io)) ;;
  let output := Text.strip out in
  err <- lift (read_decode E (snd io)) ;;
  let error := Text.strip err in
  SSHClient_close c ;;
  ret [("status", success_status);
       ("output", VStr output);
       ("error", VStr error)].

Definition execute_ssh_command (connection : SSHConnection)
    (command : string) : M dict :=
  try_except (execute_ssh_command_body connection command)
    (fun e => ret (error_result e)).

(** [Tools.pipe] *)
Definition pipe (body : dict) : M dict :=
  try_except
    (let messages := dict_get body "messages" (VList []) in
     if negb (truthy messages) then
       ret [("error", VStr "No messages provided")]
     else
       last_message <- lift (py_last messages) ;;
       content <- lift (py_get last_message "content" (VStr "")) ;;
       lowered <- lift (py_lower content) ;;
       if Text.contains "ip" lowered then
         ip_info <- get_ip_info ;;
         lift (append_message body
                 (assistant (Json.dumps (VDict [("ip_info", VDict ip_info)]))))
       else if Text.contains "ssh" lowered then
         ssh_host <- os_getenv E "SSH_HOST" ;;
         ssh_user <- os_getenv E "SSH_USER" ;;
         ssh_pass <- os_getenv E "SSH_PASS" ;;
         let connection :=
           SSHConnection_default (default "localhost" ssh_host)
             (default "user" ssh_user) ssh_pass in
         result <-
           (if Text.contains "test" lowered then
              test_ssh_connection connection
            else
              command <- lift (py_split_second_strip content "ssh") ;;
              execute_ssh_command connection command) ;;
         lift (append_message body
                 (assistant (Json.dumps (VDict [("ssh_result", VDict result)]))))
       else ret body)
    (fun e =>
       logger_error ("Pipe error: " +:+ str_exn e) ;;
       ret [("error", VStr (str_exn e))]).

End Tools.

(** The four entry points, as a caller invokes them one after another. *)
Inductive call : Type :=
| CallGetIpInfo
| CallTest (connection : SSHConnection)
| CallExecute (connection : SSHConnection) (command : string)
| CallPipe (body : dict).

Definition run_call (E : Env) (c : call) : M dict :=
  match c with
  | CallGetIpInfo => get_ip_info E
  | CallTest connection => test_ssh_connection E connection
  | CallExecute connection command => execute_ssh_command E connection command
  | CallPipe body => pipe E body
  end.

(** The state after a sequence of calls; what each call returned is dropped,
    as is an exception, if one ever came out. *)
Fixpoint run_calls (E : Env) (cs : list call) (s : State) : State :=
  match cs with
  | [] => s
  | c :: r => run_calls E r (snd (run_call E c s))
  end.

(** ** The class test of [except Exception] *)

(** An [Exn] names its class.  The built-in classes below derive from
    [BaseException] and not from [Exception]; a handler [except Exception]
    does not catch their instances.  ([CancelledError] is
    [asyncio.CancelledError].) *)
Definition outside_Exception : list string :=
  ["BaseException"; "BaseExceptionGroup"; "GeneratorExit";
   "KeyboardInterrupt"; "SystemExit"; "CancelledError"].

(** [isinstance(e, Exception)] *)
Definition derives_from_Exception (e : Exn) : bool :=
  negb (existsb (String.eqb (exn_class e)) outside_Exception).

(** [try: body  except Exception as e: handler(e)], with the class test:
    an exception that does not derive from [Exception] goes through. *)
Definition except_Exception {A} (body : M A) (handler : Exn -> M A) : M A :=
  fun s => match body s with
           | (Ok a, s') => (Ok a, s')
           | (Raise e, s') =>
               if derives_from_Exception e then handler e s'
               else (Raise e, s')
           end.

(** The four coroutines with their handlers as [except_Exception].  The
    definitions of the section [Tools] above take every [Exn] for an
    instance of a subclass of [Exception], which is what the library calls
    raise when they fail; these make no such assumption.  The two agree in
    every world whose library calls raise nothing outside [Exception]
    (lemma [guarded_agrees]). *)
Module Guarded.

Section Tools.

Variable E : Env.

Local Open Scope py_scope.

(** [Tools.get_ip_info] *)
Definition get_ip_info : M dict :=
  except_Exception (get_ip_info_body E)
    (fun e =>
       logger_error ("IP retrieval failed: " +:+ str_exn e) ;;
       ret (error_result e)).

(** [Tools.test_ssh_connection] *)
Definition test_ssh_connection (connection : SSHConnection) : M dict :=
  except_Exception (test_ssh_connection_body E connection)
    (fun e => ret (error_result e)).

(** [Tools.execute_ssh_command] *)
Definition execute_ssh_command (connection : SSHConnection)
    (command : string) : M dict :=
  except_Exception (execute_ssh_command_body E connection command)
    (fun e => ret (error_result e)).

(** [Tools.pipe]: the statements under [try:], then the whole coroutine. *)
Definition pipe_body (body : dict) : M dict :=
  let messages := dict_get body "messages" (VList []) in
  if negb (truthy messages) then
    ret [("error", VStr "No messages provided")]
  else
    last_message <- lift (py_last messages) ;;
    content <- lift (py_get last_message "content" (VStr "")) ;;
    lowered <- lift (py_lower content) ;;
    if Text.contains "ip" lowered then
      ip_info <- get_ip_info ;;
      lift (append_message body
              (assistant (Json.dumps (VDict [("ip_info", VDict ip_info)]))))
    else if Text.contains "ssh" lowered then
      ssh_host <- os_getenv E "SSH_HOST" ;;
      ssh_user <- os_getenv E "SSH_USER" ;;
      ssh_pass <- os_getenv E "SSH_PASS" ;;
      let connection :=
        SSHConnection_default (default "localhost" ssh_host)
          (default "user" ssh_user) ssh_pass in
      result <-
        (if Text.contains "test" lowered then
           test_ssh_connection connection
         else
           command <- lift (py_split_second_strip content "ssh") ;;
           execute_ssh_command connection command) ;;
      lift (append_message body
              (assistant (Json.dumps (VDict [("ssh_result", VDict result)]))))
    else ret body.

Definition pipe (body : dict) : M dict :=
  except_Exception (pipe_body body)
    (fun e =>
       logger_error ("Pipe error: " +:+ str_exn e) ;;
       ret [("error", VStr (str_exn e))]).

End Tools.

End Guarded.

(** ** Observations on a run *)

(** The events a computation adds to the trace. *)
Definition events_of {A} (m : M A) (s : State) : list event :=
  drop (length (trace s)) (trace (snd (m s))).

(** The client an event names, if it names one. *)
Definition event_client (ev : event) : option nat :=
  match ev with
  | EvNewClient c | EvConnect c _ _ _ _ _ | EvExec c _ | EvClose c => Some c
  | _ => None
  end.

(** A call into paramiko. *)
Definition is_ssh_event (ev : event) : bool :=
  match ev with
  | EvLoadKey _ | EvNewClient _ | EvConnect _ _ _ _ _ _ | EvExec _ _
  | EvClose _ => true
  | _ => false
  end.

(** A call that leaves the machine. *)
Definition is_network_event (ev : event) : bool :=
  match ev with
  | EvResolveHostname | EvHttpGet _ _ | EvConnect _ _ _ _ _ _ | EvExec _ _ => true
  | _ => false
  end.

(** The way of authenticating an operation took, read off its events: a key
    file was loaded, or [connect] was given a password. *)
Inductive auth_path : Type :=
| ByKey (path : string)
| ByPassword (pw : option string).

Fixpoint path_taken (evs : list event) : option auth_path :=
  match evs with
  | [] => None
  | EvLoadKey path :: _ => Some (ByKey path)
  | EvConnect _ _ _ _ (Password pw) _ :: _ => Some (ByPassword pw)
  | _ :: r => path_taken r
  end.

(** The clients that hold an active transport. *)
Definition is_active (cl : client) : bool :=
  match transport_of cl with Active => true | _ => false end.

Definition open_transports (s : State) : list client :=
  List.filter is_active (clients s).

(** The status of an answer. *)
Definition status_of (r : result dict) : value :=
  match r with
  | Ok d => dict_get d "status" VNone
  | Raise _ => VNone
  end.

(** [s'] continues [s]: the registry is the same, the trace has grown at its
    end, and so has the list of clients (those already there may have
    changed their transport). *)
Record continues (s s' : State) : Prop := mkContinues {
  continues_registry : active_connections s' = active_connections s;
  continues_trace : exists evs, trace s' = trace s ++ evs;
  continues_clients : (length (clients s) <= length (clients s'))%nat
}.

(** A computation after which the state always continues the one before. *)
Definition steady {A} (m : M A) : Prop := forall s, continues s (snd (m s)).

(** Both SSH coroutines begin with the same three statements: create a
    client, set its host-key policy, connect it. *)
Definition open_session (E : Env) (connection : SSHConnection) : M nat :=
  (c <- SSHClient_new ;;
   set_missing_host_key_policy c ;;
   connect_client E c connection ;;
   ret c)%py.

(** The first call made on behalf of a new client [c]: the key file is read
    when [private_key] is a non-empty text, and otherwise [connect] is called
    at once, with the fields of the connection as they are. *)
Definition first_library_call (connection : SSHConnection) (c : nat) : event :=
  match private_key connection with
  | Some path =>
      if truthy (VStr path) then EvLoadKey path
      else EvConnect c (host connection) (port connection)
             (username connection) (Password (password connection))
             (timeout connection)
  | None =>
      EvConnect c (host connection) (port connection) (username connection)
        (Password (password connection)) (timeout connection)
  end.

(** An event that names no client but [c]. *)
Definition names_only (c : nat) (ev : event) : Prop :=
  event_client ev = Some c \/ event_client ev = None.

(** [connect] is given a password (or [None] for one). *)
Definition offers_password (ev : event) : bool :=
  match ev with
  | EvConnect _ _ _ _ (Password _) _ => true
  | _ => false
  end.

(** An event that names no client but [c] and offers no password. *)
Definition quiet (c : nat) (ev : event) : Prop :=
  names_only c ev /\ offers_password ev = false.

(** What [open_session] leaves behind, whether it returns or raises. *)
Record opened (connection : SSHConnection) (s : State)
    (r : result nat) (s' : State) : Prop := mkOpened {
  opened_registry : active_connections s' = active_connections s;
  opened_trace : exists rest,
      trace s' = trace s ++ EvNewClient (length (clients s))
                   :: first_library_call connection (length (clients s))
                   :: rest
      /\ Forall (quiet (length (clients s))) rest;
  opened_clients : exists cl,
      clients s' = clients s ++ [cl] /\ releases cl = O
      /\ (forall c, r = Ok c -> c = length (clients s) /\ transport_of cl = Active)
}.

(** What [test_ssh_connection] returns when nothing raised. *)
Definition test_success : dict :=
  [("status", success_status); ("message", VStr "SSH connection successful")].

(** The statements of [execute_ssh_command] after [connect]. *)
Definition run_on_session (E : Env) (c : nat) (command : string) : M dict :=
  (io <- SSHClient_exec_command E c command ;;
   out <- lift (read_decode E (fst io)) ;;
   let output := Text.strip out in
   err <- lift (read_decode E (snd io)) ;;
   let error := Text.strip err in
   SSHClient_close c ;;
   ret [("status", success_status);
        ("output", VStr output);
        ("error", VStr error)])%py.

(** The state with another registry in the place of
    [self.active_connections]. *)
Definition set_registry (reg : gmap string nat) (s : State) : State :=
  {| active_connections := reg; clients := clients s; trace := trace s |}.

(** A computation is blind to the registry when running it with another
    registry gives the same result and the same state, registry apart. *)
Definition blind {A} (m : M A) : Prop :=
  forall reg s, m (set_registry reg s) = (fst (m s), set_registry reg (snd (m s))).

(** What [execute_ssh_command] returns when nothing raised, from the two
    decoded streams. *)
Definition execute_success (out err : string) : dict :=
  [("status", success_status);
   ("output", VStr (Text.strip out));
   ("error", VStr (Text.strip err))].

(** After [connect], [execute_ssh_command] ends in one of two ways: an
    exception was caught right after the [exec_command] call was made, with
    nothing done since; or both streams were read and decoded and the client
    was closed. *)
Inductive session_run (E : Env) (c : nat) (command : string) (s1 : State)
  : result dict * State -> Prop :=
| session_failed e :
    session_run E c command s1
      (Ok (error_result e), record_event (EvExec c command) s1)
| session_done io out err :
    transport_of <$> clients s1 !! c = Some Active ->
    ssh_exec E (trace s1) command = Ok io ->
    read_decode E (fst io) = Ok out ->
    read_decode E (snd io) = Ok err ->
    session_run E c command s1
      (Ok (execute_success out err),
       snd (SSHClient_close c (record_event (EvExec c command) s1))).

(** A computation makes its own client: the clients after it are those
    before it and one more, the first event is the creation of that client,
    and no other client is named by any event. *)
Definition makes_own_client {A} (m : M A) (s : State) : Prop :=
  (exists cl, clients (snd (m s)) = clients s ++ [cl])
  /\ exists rest,
       events_of m s = EvNewClient (length (clients s)) :: rest
       /\ Forall (names_only (length (clients s))) rest.

(** The events of an SSH coroutine called with [connection]: a client is
    created, then comes [first_library_call]; whatever follows names that
    client only and offers no password. *)
Definition session_events {A} (connection : SSHConnection) (m : M A)
    (s : State) : Prop :=
  (exists cl, clients (snd (m s)) = clients s ++ [cl])
  /\ exists rest,
       events_of m s
       = EvNewClient (length (clients s))
           :: first_library_call connection (length (clients s)) :: rest
       /\ Forall (quiet (length (clients s))) rest.

(** ** Sample worlds and inputs *)

(** The bytes a small remote shell writes for a few commands. *)
Definition remote_shell (command : string) : streams :=
  if String.eqb command "echo hello" then
    (Ok (list_byte_of_string "hello" ++ [x0a]), Ok [])
  else if String.eqb command "echo '  hello'" then
    (Ok (list_byte_of_string "  hello" ++ [x0a]), Ok [])
  else if String.eqb command "printf '\377'" then
    (Ok [xff], Ok [])
  else (Ok [], Ok []).

(** A world in which everything answers: the host resolves, the echo
    service replies, key files load, the SSH server accepts whatever it is
    offered (a key held by the agent when no credential is given). *)
Definition lab : Env :=
  {| resolve_hostname := fun _ => Ok "192.168.1.20";
     http_get_json := fun _ _ _ => Ok (VDict [("ip", VStr "203.0.113.7")]);
     load_key := fun _ path => Ok ("RSA:" +:+ path);
     ssh_connect := fun _ _ _ _ _ _ => Connected;
     ssh_exec := fun _ command => Ok (remote_shell command);
     codec_diagnostic := fun _ => "'utf-8' codec can't decode byte 0xff in position 0: invalid start byte";
     getenv := fun _ => None |}.


(** The same world with a server that rejects every login, after the
    transport has been set up. *)
Definition rejecting : Env :=
  {| resolve_hostname := resolve_hostname lab;
     http_get_json := http_get_json lab;
     load_key := load_key lab;
     ssh_connect := fun _ _ _ _ _ _ =>
       ConnectRaises (mkExn "AuthenticationException" "Authentication failed.") true;
     ssh_exec := ssh_exec lab;
     codec_diagnostic := codec_diagnostic lab;
     getenv := getenv lab |}.

Definition user_says (text : string) : dict :=
  [("messages", VList [VDict [("role", VStr "user"); ("content", VStr text)]])].

(** ** The claims that do not hold as the specification words them *)

(** The path the specification gives: the key whenever [private_key] is
    set, the password otherwise. *)
Definition path_when_set (connection : SSHConnection) : auth_path :=
  match private_key connection with
  | Some path => ByKey path
  | None => ByPassword (password connection)
  end.

Definition key_whenever_set (E : Env) (connection : SSHConnection)
    (s : State) : Prop :=
  path_taken (events_of (test_ssh_connection E connection) s)
  = Some (path_when_set connection).

(** The path the code takes: [if connection.private_key:] asks for the truth
    value, and the empty text has none. *)
Definition chosen_path (connection : SSHConnection) : auth_path :=
  match private_key connection with
  | Some path =>
      if truthy (VStr path) then ByKey path
      else ByPassword (password connection)
  | None => ByPassword (password connection)
  end.

(** A connection with a password and an empty [private_key]. *)
Definition empty_key_connection : SSHConnection :=
  {| host := "localhost"; port := 22; username := "testuser";
     password := Some "testpass"; private_key := Some ""; timeout := 10 |}.

(** A connection with a key file and a password. *)
Definition key_and_password_connection : SSHConnection :=
  {| host := "localhost"; port := 22; username := "testuser";
     password := Some "testpass"; private_key := Some "/home/testuser/.ssh/id_rsa";
     timeout := 10 |}.

(** The validation the specification asks of [connect]. *)
Definition valid_spec (connection : SSHConnection) : bool :=
  negb (String.eqb (host connection) "")
  && (1 <=? port connection) && (port connection <=? 65535)
  && (bool_decide (is_Some (password connection))
      || bool_decide (is_Some (private_key connection))).

(** "Validates before any network activity": a connection that is not valid
    gets an error and no call leaves the machine. *)
Definition validates_first (E : Env) (connection : SSHConnection)
    (s : State) : Prop :=
  valid_spec connection = false ->
  status_of (fst (test_ssh_connection E connection s)) = error_status
  /\ forallb (fun ev => negb (is_network_event ev))
       (events_of (test_ssh_connection E connection) s) = true.

(** A connection without password and without key. *)
Definition no_credentials : SSHConnection :=
  SSHConnection_default "localhost" "testuser" None.

(** A connection with an empty host, port 0 and no credentials. *)
Definition nothing_valid : SSHConnection :=
  {| host := ""; port := 0; username := "testuser";
     password := None; private_key := None; timeout := 10 |}.


(** "Trims trailing whitespace": on an open session whose streams hold
    UTF-8 text, the answer carries each text without its trailing
    whitespace. *)
Definition trims_trailing_only (E : Env) (connection : SSHConnection)
    (command : string) (s : State) : Prop :=
  forall c s1 out err,
    open_session E connection s = (Ok c, s1) ->
    ssh_exec E (trace s1) command = Ok (Ok out, Ok err) ->
    Text.utf8_valid (List.map Byte.to_N out) = true ->
    Text.utf8_valid (List.map Byte.to_N err) = true ->
    fst (execute_ssh_command E connection command s)
    = Ok [("status", success_status);
          ("output", VStr (Text.rstrip (string_of_list_byte out)));
          ("error", VStr (Text.rstrip (string_of_list_byte err)))].

(** The connection of the example at the end of [example_tool.py]. *)
Definition test_connection : SSHConnection :=
  SSHConnection_default "localhost" "testuser" (Some "testpass").

(** ** Further observations *)

(** The state [s] with one more client [cl] and the events [evs] added. *)
Definition session_state (s : State) (cl : client) (evs : list event) : State :=
  {| active_connections := active_connections s;
     clients := clients s ++ [cl];
     trace := trace s ++ evs |}.

(** The state [s] with the events [evs] added. *)
Definition after_events (s : State) (evs : list event) : State :=
  {| active_connections := active_connections s;
     clients := clients s;
     trace := trace s ++ evs |}.




(** The world [lab] in which the echo service replies with an object that
    has no "ip" entry. *)
Definition tight_lipped : Env :=
  {| resolve_hostname := resolve_hostname lab;
     http_get_json := fun _ _ _ => Ok (VDict [("origin", VStr "203.0.113.7")]);
     load_key := load_key lab;
     ssh_connect := ssh_connect lab;
     ssh_exec := ssh_exec lab;
     codec_diagnostic := codec_diagnostic lab;
     getenv := getenv lab |}.

(** A client as a coroutine can leave one behind: never connected;
    connected and not closed; or closed, its transport released once. *)
Definition settled (cl : client) : Prop :=
  cl = mkClient NoTransport 0 \/ cl = mkClient Active 0
  \/ cl = mkClient Released 1.

(** A computation that leaves the clients it finds as they are and adds at
    most [n] settled ones. *)
Definition adds_clients (n : nat) {A} (m : M A) : Prop :=
  forall s, exists new,
    clients (snd (m s)) = clients s ++ new
    /\ Forall settled new
    /\ (length new <= n)%nat.

(** The connection [pipe] builds: host, user and password from the
    environment, with "localhost" and "user" when the variables are not
    set; the other fields at their defaults. *)
Definition env_connection (E : Env) : SSHConnection :=
  SSHConnection_default (default "localhost" (getenv E "SSH_HOST"))
    (default "user" (getenv E "SSH_USER")) (getenv E "SSH_PASS").




(** An event [pipe] may produce: no key file is read; a [connect] goes to
    the host of the environment on port 22 with the user and password of
    the environment and a timeout of 10; an HTTP request goes to the echo
    service with a timeout of 5. *)
Definition from_environment (E : Env) (ev : event) : Prop :=
  match ev with
  | EvLoadKey _ => False
  | EvConnect _ h p u a t =>
      h = default "localhost" (getenv E "SSH_HOST")
      /\ p = 22
      /\ u = default "user" (getenv E "SSH_USER")
      /\ a = Password (getenv E "SSH_PASS")
      /\ t = 10
  | EvHttpGet url t => url = ipify_url /\ t = 5
  | _ => True
  end.

(** A computation all of whose events satisfy [Q]. *)
Definition emits (Q : event -> Prop) {A} (m : M A) : Prop :=
  forall s, exists evs, trace (snd (m s)) = trace s ++ evs /\ Forall Q evs.

(** An [exec_command] call. *)
Definition is_exec (ev : event) : bool :=
  match ev with
  | EvExec _ _ => true
  | _ => false
  end.

(** A world with SSH settings in its environment. *)
Definition configured : Env :=
  {| resolve_hostname := resolve_hostname lab;
     http_get_json := http_get_json lab;
     load_key := load_key lab;
     ssh_connect := ssh_connect lab;
     ssh_exec := ssh_exec lab;
     codec_diagnostic := codec_diagnostic lab;
     getenv := fun name =>
       if String.eqb name "SSH_HOST" then Some "build.example.org"
       else if String.eqb name "SSH_USER" then Some "deploy"
       else if String.eqb name "SSH_PASS" then Some "s3cret"
       else None |}.

(** A body whose last message has a list of parts as its content. *)
Definition multipart_body : dict :=
  [("messages",
    VList [VDict [("role", VStr "user");
                  ("content",
                   VList [VDict [("type", VStr "text");
                                 ("text", VStr "what is my ip")]])]])].


(** Whether a text begins, or ends, with a whitespace character. *)
Definition starts_with_space (t : string) : bool :=
  match Text.chars t with
  | c :: _ => Text.is_space c
  | [] => false
  end.

Definition ends_with_space (t : string) : bool :=
  match rev (Text.chars t) with
  | c :: _ => Text.is_space c
  | [] => false
  end.

(** The shape of what [Text.chars] returns: each piece is one byte followed
    by continuation bytes, and every piece but the first begins with a byte
    that is no continuation byte. *)
Fixpoint all_continuation (t : string) : bool :=
  match t with
  | EmptyString => true
  | String a r => Text.is_continuation a && all_continuation r
  end.

Definition chunk (c : string) : bool :=
  match c with
  | String _ t => all_continuation t
  | EmptyString => false
  end.

Definition fresh_chunk (c : string) : bool :=
  chunk c && negb (Text.starts_with_continuation c).

Definition well_chunked (cs : list string) : Prop :=
  match cs with
  | [] => True
  | c :: r => chunk c = true /\ Forall (fun x => fresh_chunk x = true) r
  end.

(** * [example_filter_function.py] *)

(** The class [Filter] has three coroutines, [inlet], [stream] and
    [outlet].  Each logs its argument at level INFO and, when the argument
    has a "content" entry, replaces that entry by a decorated text; the
    argument is changed in place and returned.  The model returns the new
    dictionary and the log records written.  For a dictionary of JSON values
    no statement under [try] can raise, so the handlers are not reached.
    The field [ENABLE_LOGGING] is declared and never consulted.

    An f-string puts a value as [str] does.  For lists and dictionaries that
    is [repr], whose treatment of quotes and unprintable characters is not
    modelled: it is a parameter. *)

Module FilterFunction.

Record Filter : Type := mkFilter { ENABLE_LOGGING : bool }.

(** [Filter()] *)
Definition default_filter : Filter := {| ENABLE_LOGGING := true |}.

Inductive log_record : Type :=
| LogInfo (text : string)
| LogError (text : string).

Definition newline : string := String (ascii_of_nat 10) EmptyString.

Section Formatting.

Variable repr : value -> string.

(** [f"{v}"] *)
Definition format_value (v : value) : string :=
  match v with
  | VStr s => s
  | VNone => "None"
  | VBool true => "True"
  | VBool false => "False"
  | VInt n => pretty n
  | VList _ | VDict _ => repr v
  end.

(** [Filter.inlet] *)
Definition inlet (self : Filter) (message : dict) : dict * list log_record :=
  let log := [LogInfo ("Intercepting user input: " +:+ repr (VDict message))] in
  if dict_has message "content" then
    (dict_set message "content"
       (VStr ("[Filtered] " +:+ format_value (dict_get message "content" VNone))),
     log)
  else (message, log).

(** [Filter.stream] *)
Definition stream (self : Filter) (chunk : dict) : dict * list log_record :=
  let log := [LogInfo ("Intercepting stream chunk: " +:+ repr (VDict chunk))] in
  if dict_has chunk "content" then
    (dict_set chunk "content"
       (VStr (format_value (dict_get chunk "content" VNone)
              +:+ " [Stream Filtered]")),
     log)
  else (chunk, log).

(** [Filter.outlet] *)
Definition outlet (self : Filter) (response : dict) : dict * list log_record :=
  let log :=
    [LogInfo ("Intercepting final response: " +:+ repr (VDict response))] in
  if dict_has response "content" then
    (dict_set response "content"
       (VStr (format_value (dict_get response "content" VNone)
              +:+ newline +:+ "[Filtered Response]")),
     log)
  else (response, log).

(** A message through all three, one after the other. *)
Definition through_all (self : Filter) (message : dict) : dict :=
  fst (outlet self (fst (stream self (fst (inlet self message))))).

End Formatting.

End FilterFunction.

(** A stand-in for [repr] on sample inputs. *)
Definition sample_repr (v : value) : string := Json.dumps v.

(** A chat message with a text, one without content, one whose content is
    null. *)
Definition hello_message : dict :=
  [("role", VStr "user"); ("content", VStr "Hello, world!")].

Definition empty_delta : dict :=
  [("role", VStr "assistant"); ("done", VBool true)].

Definition null_content : dict :=
  [("role", VStr "assistant"); ("content", VNone); ("tool_calls", VList [])].

(** ** Exceptions outside [Exception] *)

(** "No operation throws past its own boundary": each of the three
    coroutines returns a dictionary, whatever is raised inside. *)
Definition nothing_escapes (E : Env) (s : State) : Prop :=
  (exists d s', Guarded.get_ip_info E s = (Ok d, s'))
  /\ (forall connection,
        exists d s', Guarded.test_ssh_connection E connection s = (Ok d, s'))
  /\ (forall connection command,
        exists d s',
          Guarded.execute_ssh_command E connection command s = (Ok d, s')).

(** How a coroutine [op] answers, given the statements [body] under its
    [try]: what the body returned, with status "success"; when the body
    raised an exception that derives from [Exception], a dictionary with
    status "error" and the exception's text as message; and when the body
    raised any other exception, that exception. *)
Inductive handled (body op : M dict) (s : State) : Prop :=
| handled_returned d s' :
    body s = (Ok d, s') ->
    op s = (Ok d, s') ->
    dict_get d "status" VNone = VStr "success" ->
    handled body op s
| handled_caught e s' s'' :
    body s = (Raise e, s') ->
    derives_from_Exception e = true ->
    op s = (Ok [("status", VStr "error"); ("message", VStr (str_exn e))], s'') ->
    handled body op s
| handled_escaped e s' :
    body s = (Raise e, s') ->
    derives_from_Exception e = false ->
    op s = (Raise e, s') ->
    handled body op s.

(** The world [lab] in which the user interrupts the program while it
    connects. *)
Definition interrupted : Env :=
  {| resolve_hostname := resolve_hostname lab;
     http_get_json := http_get_json lab;
     load_key := load_key lab;
     ssh_connect := fun _ _ _ _ _ _ =>
       ConnectRaises (mkExn "KeyboardInterrupt" "") false;
     ssh_exec := ssh_exec lab;
     codec_diagnostic := codec_diagnostic lab;
     getenv := getenv lab |}.

(** A computation that raises nothing outside [Exception]. *)
Definition polite {A} (m : M A) : Prop :=
  forall s e s', m s = (Raise e, s') -> derives_from_Exception e = true.

(** Streams whose reads raise nothing outside [Exception]. *)
Definition polite_streams (io : streams) : Prop :=
  (forall e, fst io = Raise e -> derives_from_Exception e = true)
  /\ (forall e, snd io = Raise e -> derives_from_Exception e = true).

(** A world whose library calls raise nothing outside [Exception]. *)
Record raises_Exception_only (E : Env) : Prop := mkRaisesExceptionOnly {
  polite_resolve : forall t e,
    resolve_hostname E t = Raise e -> derives_from_Exception e = true;
  polite_http : forall t url tmo e,
    http_get_json E t url tmo = Raise e -> derives_from_Exception e = true;
  polite_load_key : forall t path e,
    load_key E t path = Raise e -> derives_from_Exception e = true;
  polite_connect : forall t h p u a tmo e started,
    ssh_connect E t h p u a tmo = ConnectRaises e started ->
    derives_from_Exception e = true;
  polite_exec : forall t command e,
    ssh_exec E t command = Raise e -> derives_from_Exception e = true;
  polite_exec_streams : forall t command io,
    ssh_exec E t command = Ok io -> polite_streams io
}.

(** * Properties *)

(** ** Runs on sample inputs *)

Example strip_both_ends :
  Text.strip (String (ascii_of_nat 9) "  hello world  ") = "hello world".
Proof. reflexivity. Qed.

Example split_on_ssh :
  Text.split "ssh" "please ssh uptime" = ["please "; " uptime"].
Proof. reflexivity. Qed.

Example lower_and_contains :
  Text.contains "ip" (Text.lower "What's my server IP?") = true.
Proof. reflexivity. Qed.

Example not_utf8 : Text.utf8_valid [255%N] = false.
Proof. reflexivity. Qed.

(** The three calls of the example at the end of [example_tool.py]. *)
Example main_get_ip_info :
  fst (get_ip_info lab init)
  = Ok [("status", VStr "success");
        ("private_ip", VStr "192.168.1.20");
        ("public_ip", VStr "203.0.113.7")].
Proof. reflexivity. Qed.

Example main_test_ssh_connection :
  test_ssh_connection lab test_connection init
  = (Ok [("status", VStr "success");
         ("message", VStr "SSH connection successful")],
     {| active_connections := ∅;
        clients := [mkClient Released 1];
        trace := [EvNewClient 0;
                  EvConnect 0 "localhost" 22 "testuser"
                    (Password (Some "testpass")) 10;
                  EvClose 0] |}).
Proof. reflexivity. Qed.

Example main_pipe :
  fst (pipe lab (user_says "What's my server IP?") init)
  = Ok [("messages",
         VList [VDict [("role", VStr "user");
                       ("content", VStr "What's my server IP?")];
                assistant
                  (Json.dumps
                     (VDict [("ip_info",
                              VDict [("status", VStr "success");
                                     ("private_ip", VStr "192.168.1.20");
                                     ("public_ip", VStr "203.0.113.7")])]))])].
Proof. reflexivity. Qed.

(** With a key file and a password, the key is loaded and offered. *)
Example key_before_password :
  trace (snd (test_ssh_connection lab key_and_password_connection init))
  = [EvNewClient 0;
     EvLoadKey "/home/testuser/.ssh/id_rsa";
     EvConnect 0 "localhost" 22 "testuser"
       (PKey "RSA:/home/testuser/.ssh/id_rsa") 10;
     EvClose 0].
Proof. reflexivity. Qed.

(** [pipe] finds "ssh" in the lowered content and splits the content as it
    was written. *)
Example pipe_runs_command :
  trace (snd (pipe lab (user_says "please ssh uptime") init))
  = [EvNewClient 0;
     EvConnect 0 "localhost" 22 "user" (Password None) 10;
     EvExec 0 "uptime";
     EvClose 0].
Proof. reflexivity. Qed.

Example pipe_upper_case_ssh :
  fst (pipe lab (user_says "SSH uptime") init)
  = Ok [("error", VStr "list index out of range")].
Proof. reflexivity. Qed.

Lemma continues_refl s : continues s s.
Proof.
  split; [reflexivity | exists []; symmetry; apply app_nil_r | reflexivity].
Qed.

Lemma continues_trans s1 s2 s3 :
  continues s1 s2 -> continues s2 s3 -> continues s1 s3.
Proof.
  intros [R1 [e1 T1] C1] [R2 [e2 T2] C2]. split.
  - congruence.
  - exists (e1 ++ e2). rewrite T2, T1. symmetry. apply app_assoc.
  - lia.
Qed.

Lemma continues_record_event ev s : continues s (record_event ev s).
Proof. split; [reflexivity | exists [ev]; reflexivity | reflexivity]. Qed.

Lemma steady_ret {A} (a : A) : steady (ret a).
Proof. intros s. apply continues_refl. Qed.

Lemma steady_lift {A} (r : result A) : steady (lift r).
Proof. intros s. apply continues_refl. Qed.

Lemma steady_bind {A B} (m : M A) (k : A -> M B) :
  steady m -> (forall a, steady (k a)) -> steady (bind m k).
Proof.
  intros Hm Hk s. unfold bind. specialize (Hm s).
  destruct (m s) as [[a | e] s1]; simpl in *.
  - eapply continues_trans; [exact Hm | apply Hk].
  - exact Hm.
Qed.

Lemma steady_try_except {A} (m : M A) (h : Exn -> M A) :
  steady m -> (forall e, steady (h e)) -> steady (try_except m h).
Proof.
  intros Hm Hh s. unfold try_except. specialize (Hm s).
  destruct (m s) as [[a | e] s1]; simpl in *.
  - exact Hm.
  - eapply continues_trans; [exact Hm | apply Hh].
Qed.

Lemma steady_if {A} (b : bool) (m1 m2 : M A) :
  steady m1 -> steady m2 -> steady (if b then m1 else m2).
Proof. destruct b; auto. Qed.

Section LibrarySteady.

Variable E : Env.

Lemma steady_gethostbyname : steady (socket_gethostbyname_hostname E).
Proof. intros s. apply continues_record_event. Qed.

Lemma steady_requests_get url t : steady (requests_get_json E url t).
Proof. intros s. apply continues_record_event. Qed.

Lemma steady_logger_error text : steady (logger_error text).
Proof. intros s. apply continues_record_event. Qed.

Lemma steady_getenv name : steady (os_getenv E name).
Proof. intros s. apply continues_refl. Qed.

Lemma steady_load_key path : steady (RSAKey_from_private_key_file E path).
Proof. intros s. apply continues_record_event. Qed.

Lemma steady_new_client : steady SSHClient_new.
Proof.
  intros s. split; simpl.
  - reflexivity.
  - eexists. reflexivity.
  - rewrite length_app. lia.
Qed.

Lemma steady_policy c : steady (set_missing_host_key_policy c).
Proof. apply steady_ret. Qed.

Lemma steady_connect c h p u a t : steady (SSHClient_connect E c h p u a t).
Proof.
  intros s. unfold SSHClient_connect.
  destruct (ssh_connect E (trace s) h p u a t) as [| e [|]]; simpl;
    (split; simpl;
     [reflexivity | eexists; reflexivity | rewrite ?length_alter; lia]).
Qed.

Lemma steady_exec_command c cmd : steady (SSHClient_exec_command E c cmd).
Proof.
  intros s. unfold SSHClient_exec_command.
  destruct (transport_of <$> clients s !! c) as [[| |]|]; simpl;
    apply continues_record_event.
Qed.

Lemma steady_close c : steady (SSHClient_close c).
Proof.
  intros s. split; simpl;
    [reflexivity | eexists; reflexivity | rewrite length_alter; lia].
Qed.

End LibrarySteady.

Create HintDb steady.
#[export] Hint Resolve steady_ret steady_lift steady_gethostbyname
  steady_requests_get steady_logger_error steady_getenv steady_load_key
  steady_new_client steady_policy steady_connect steady_exec_command
  steady_close : steady.

(** Goes through a computation statement by statement. *)
Ltac steady_step :=
  match goal with
  | |- steady (bind _ _) => apply steady_bind; [| intros ?]
  | |- steady (try_except _ _) => apply steady_try_except; [| intros ?]
  | |- steady (if ?b then _ else _) => apply steady_if
  | |- steady (match ?x with _ => _ end) => destruct x
  | |- steady (let _ := _ in _) => cbv zeta
  | |- steady _ => solve [auto with steady]
  end.

Section ToolsSteady.

Variable E : Env.

Lemma steady_get_ip_info : steady (get_ip_info E).
Proof. unfold get_ip_info, get_ip_info_body. repeat steady_step. Qed.

Lemma steady_connect_client c conn : steady (connect_client E c conn).
Proof. unfold connect_client. repeat steady_step. Qed.

Lemma steady_test conn : steady (test_ssh_connection E conn).
Proof.
  unfold test_ssh_connection, test_ssh_connection_body.
  repeat (steady_step || apply steady_connect_client).
Qed.

Lemma steady_execute conn cmd : steady (execute_ssh_command E conn cmd).
Proof.
  unfold execute_ssh_command, execute_ssh_command_body.
  repeat (steady_step || apply steady_connect_client).
Qed.

Lemma steady_pipe body : steady (pipe E body).
Proof.
  unfold pipe.
  repeat (steady_step || apply steady_get_ip_info || apply steady_test
          || apply steady_execute).
Qed.

Lemma steady_run_call c : steady (run_call E c).
Proof.
  destruct c; simpl;
    auto using steady_get_ip_info, steady_test, steady_execute, steady_pipe.
Qed.

Lemma continues_run_calls cs s : continues s (run_calls E cs s).
Proof.
  revert s. induction cs as [| c cs IH]; intros s; simpl.
  - apply continues_refl.
  - eapply continues_trans; [apply steady_run_call | apply IH].
Qed.

End ToolsSteady.

Lemma alter_last {A} (f : A -> A) (l : list A) (x : A) :
  alter f (length l) (l ++ [x]) = l ++ [f x].
Proof.
  rewrite <- (Nat.add_0_r (length l)) at 1. rewrite alter_app_r. reflexivity.
Qed.

Lemma lookup_last {A} (l : list A) (x : A) : (l ++ [x]) !! length l = Some x.
Proof. apply list_lookup_middle. reflexivity. Qed.

Lemma trace_two (t : list event) (a b : event) :
  (t ++ [a]) ++ [b] = t ++ [a; b].
Proof. rewrite <- app_assoc. reflexivity. Qed.

Lemma trace_three (t : list event) (a b c : event) :
  ((t ++ [a]) ++ [b]) ++ [c] = t ++ [a; b; c].
Proof. rewrite <- !app_assoc. reflexivity. Qed.

Ltac quiet_events :=
  repeat first
    [ apply List.Forall_nil
    | apply List.Forall_cons;
      [ split; [first [left; reflexivity | right; reflexivity] | reflexivity] | ] ].

Lemma open_session_opened E connection s :
  opened connection s (fst (open_session E connection s))
    (snd (open_session E connection s)).
Proof.
  unfold open_session, connect_client, bind, set_missing_host_key_policy, ret,
    SSHClient_new, RSAKey_from_private_key_file, SSHClient_connect.
  destruct (private_key connection) as [path |] eqn:Hkey; simpl;
    [destruct (String.eqb path "") eqn:Hempty; simpl;
     [| destruct (load_key E _ path) as [key | e]; simpl] |];
    repeat match goal with
      | |- context [ssh_connect E ?t ?h ?p ?u ?a ?tm] =>
          destruct (ssh_connect E t h p u a tm) as [| e' [|]]; simpl
      end;
    (split; simpl;
     [ reflexivity
     | unfold first_library_call; rewrite Hkey; simpl; rewrite ?Hempty; simpl;
       eexists; split;
       [ rewrite ?trace_three, ?trace_two; reflexivity
       | quiet_events ]
     | eexists; split;
       [ rewrite ?alter_last; reflexivity
       | split; [reflexivity | intros c Hc; inversion Hc; auto] ] ]).
Qed.

(** The two SSH coroutines, seen as [open_session] and what follows it. *)
Lemma test_by_session E connection s :
  test_ssh_connection E connection s =
    match open_session E connection s with
    | (Ok c, s1) => (Ok test_success, snd (SSHClient_close c s1))
    | (Raise e, s1) => (Ok (error_result e), s1)
    end.
Proof.
  unfold test_ssh_connection, test_ssh_connection_body, open_session,
    try_except, bind, SSHClient_new, set_missing_host_key_policy, ret.
  simpl. destruct (connect_client E _ connection _) as [[[] | e] s1]; reflexivity.
Qed.

Lemma execute_by_session E connection command s :
  execute_ssh_command E connection command s =
    match open_session E connection s with
    | (Ok c, s1) =>
        try_except (run_on_session E c command)
          (fun e => ret (error_result e)) s1
    | (Raise e, s1) => (Ok (error_result e), s1)
    end.
Proof.
  unfold execute_ssh_command, execute_ssh_command_body, open_session,
    run_on_session, try_except, bind, SSHClient_new,
    set_missing_host_key_policy, ret.
  simpl. destruct (connect_client E _ connection _) as [[[] | e] s1]; reflexivity.
Qed.

Lemma blind_ret {A} (a : A) : blind (ret a).
Proof. intros reg s. reflexivity. Qed.

Lemma blind_lift {A} (r : result A) : blind (lift r).
Proof. intros reg s. reflexivity. Qed.

Lemma blind_bind {A B} (m : M A) (k : A -> M B) :
  blind m -> (forall a, blind (k a)) -> blind (bind m k).
Proof.
  intros Hm Hk reg s. unfold bind. rewrite Hm.
  destruct (m s) as [[a | e] s1]; simpl; [apply Hk | reflexivity].
Qed.

Lemma blind_try_except {A} (m : M A) (h : Exn -> M A) :
  blind m -> (forall e, blind (h e)) -> blind (try_except m h).
Proof.
  intros Hm Hh reg s. unfold try_except. rewrite Hm.
  destruct (m s) as [[a | e] s1]; simpl; [reflexivity | apply Hh].
Qed.

Lemma blind_if {A} (b : bool) (m1 m2 : M A) :
  blind m1 -> blind m2 -> blind (if b then m1 else m2).
Proof. destruct b; auto. Qed.

Section LibraryBlind.

Variable E : Env.

Lemma blind_gethostbyname : blind (socket_gethostbyname_hostname E).
Proof. intros reg s. reflexivity. Qed.

Lemma blind_requests_get url t : blind (requests_get_json E url t).
Proof. intros reg s. reflexivity. Qed.

Lemma blind_logger_error text : blind (logger_error text).
Proof. intros reg s. reflexivity. Qed.

Lemma blind_getenv name : blind (os_getenv E name).
Proof. intros reg s. reflexivity. Qed.

Lemma blind_load_key path : blind (RSAKey_from_private_key_file E path).
Proof. intros reg s. reflexivity. Qed.

Lemma blind_new_client : blind SSHClient_new.
Proof. intros reg s. reflexivity. Qed.

Lemma blind_policy c : blind (set_missing_host_key_policy c).
Proof. apply blind_ret. Qed.

Lemma blind_connect c h p u a t : blind (SSHClient_connect E c h p u a t).
Proof.
  intros reg s. unfold SSHClient_connect. simpl.
  destruct (ssh_connect E (trace s) h p u a t) as [| e [|]]; reflexivity.
Qed.

Lemma blind_exec_command c cmd : blind (SSHClient_exec_command E c cmd).
Proof.
  intros reg s. unfold SSHClient_exec_command. simpl.
  destruct (transport_of <$> clients s !! c) as [[| |]|]; reflexivity.
Qed.

Lemma blind_close c : blind (SSHClient_close c).
Proof. intros reg s. reflexivity. Qed.

End LibraryBlind.

Create HintDb blind.
#[export] Hint Resolve blind_ret blind_lift blind_gethostbyname
  blind_requests_get blind_logger_error blind_getenv blind_load_key
  blind_new_client blind_policy blind_connect blind_exec_command
  blind_close : blind.

Ltac blind_step :=
  match goal with
  | |- blind (bind _ _) => apply blind_bind; [| intros ?]
  | |- blind (try_except _ _) => apply blind_try_except; [| intros ?]
  | |- blind (if ?b then _ else _) => apply blind_if
  | |- blind (match ?x with _ => _ end) => destruct x
  | |- blind (let _ := _ in _) => cbv zeta
  | |- blind _ => solve [auto with blind]
  end.

Section ToolsBlind.

Variable E : Env.

Lemma blind_get_ip_info : blind (get_ip_info E).
Proof. unfold get_ip_info, get_ip_info_body. repeat blind_step. Qed.

Lemma blind_connect_client c conn : blind (connect_client E c conn).
Proof. unfold connect_client. repeat blind_step. Qed.

Lemma blind_test conn : blind (test_ssh_connection E conn).
Proof.
  unfold test_ssh_connection, test_ssh_connection_body.
  repeat (blind_step || apply blind_connect_client).
Qed.

Lemma blind_execute conn cmd : blind (execute_ssh_command E conn cmd).
Proof.
  unfold execute_ssh_command, execute_ssh_command_body.
  repeat (blind_step || apply blind_connect_client).
Qed.

Lemma blind_pipe body : blind (pipe E body).
Proof.
  unfold pipe.
  repeat (blind_step || apply blind_get_ip_info || apply blind_test
          || apply blind_execute).
Qed.

Lemma blind_run_call c : blind (run_call E c).
Proof.
  destruct c; simpl;
    auto using blind_get_ip_info, blind_test, blind_execute, blind_pipe.
Qed.

End ToolsBlind.

Lemma events_of_app {A} (m : M A) (s : State) (evs : list event) :
  trace (snd (m s)) = trace s ++ evs -> events_of m s = evs.
Proof. intros H. unfold events_of. rewrite H. apply drop_app_length. Qed.

Lemma run_on_session_cases E c command s1 :
  session_run E c command s1
    (try_except (run_on_session E c command)
       (fun e => ret (error_result e)) s1).
Proof.
  unfold try_except, run_on_session, bind, SSHClient_exec_command, lift, ret.
  destruct (transport_of <$> clients s1 !! c) as [[| |] |] eqn:Hc;
    try apply session_failed.
  destruct (ssh_exec E (trace s1) command) as [io | e] eqn:Hio;
    [| apply session_failed].
  destruct (read_decode E (fst io)) as [out | e] eqn:Hout;
    [| apply session_failed].
  destruct (read_decode E (snd io)) as [err | e] eqn:Herr;
    [| apply session_failed].
  simpl. eapply session_done; eassumption.
Qed.

Lemma bind_ok_inv {A B} (m : M A) (k : A -> M B) s b s' :
  bind m k s = (Ok b, s') ->
  exists a s1, m s = (Ok a, s1) /\ k a s1 = (Ok b, s').
Proof.
  unfold bind. destruct (m s) as [[a | e] s1]; intros H.
  - eauto.
  - discriminate.
Qed.

Ltac bind_inv H :=
  repeat (let a := fresh "a" in
          let s1 := fresh "s" in
          let Hm := fresh "Hm" in
          apply bind_ok_inv in H as (a & s1 & Hm & H); cbv beta zeta in H).

Lemma ret_ok_inv {A} (a b : A) s s' : ret a s = (Ok b, s') -> a = b /\ s = s'.
Proof. unfold ret. intros H. inversion H. auto. Qed.

Lemma get_ip_info_body_status E s d s' :
  get_ip_info_body E s = (Ok d, s') ->
  dict_get d "status" VNone = success_status.
Proof.
  unfold get_ip_info_body. intros H. bind_inv H.
  apply ret_ok_inv in H as [<- _]. reflexivity.
Qed.

Lemma test_body_status E connection s d s' :
  test_ssh_connection_body E connection s = (Ok d, s') ->
  dict_get d "status" VNone = success_status.
Proof.
  unfold test_ssh_connection_body. intros H. bind_inv H.
  apply ret_ok_inv in H as [<- _]. reflexivity.
Qed.

Lemma execute_body_status E connection command s d s' :
  execute_ssh_command_body E connection command s = (Ok d, s') ->
  dict_get d "status" VNone = success_status.
Proof.
  unfold execute_ssh_command_body. intros H. bind_inv H.
  apply ret_ok_inv in H as [<- _]. reflexivity.
Qed.

(** C5, as the specification words it, fails when what is raised does not
    derive from [Exception]: a [KeyboardInterrupt] during [connect] leaves
    [test_ssh_connection]. *)
Lemma nothing_escapes_counterexample : ~ nothing_escapes interrupted init.
Proof.
  intros (_ & Htest & _).
  destruct (Htest test_connection) as (d & s' & H).
  vm_compute in H. discriminate.
Qed.

(** C5, amended: whatever the input, [get_ip_info], [test_ssh_connection]
    and [execute_ssh_command] return the dictionary of their body, with
    status "success", when nothing is raised; they return a dictionary with
    status "error" and the text of the exception as its message when an
    exception that derives from [Exception] is raised; and an exception that
    does not derive from [Exception] ([KeyboardInterrupt], [SystemExit]) is
    the only thing that leaves them. *)
Theorem exceptions_are_handled (E : Env) (s : State) :
  handled (get_ip_info_body E) (Guarded.get_ip_info E) s
  /\ (forall connection,
        handled (test_ssh_connection_body E connection)
          (Guarded.test_ssh_connection E connection) s)
  /\ (forall connection command,
        handled (execute_ssh_command_body E connection command)
          (Guarded.execute_ssh_command E connection command) s).
Proof.
  split; [| split]; intros.
  - destruct (get_ip_info_body E s) as [[d | e] s'] eqn:Hbody.
    + eapply handled_returned;
        [exact Hbody | | exact (get_ip_info_body_status _ _ _ _ Hbody)].
      unfold Guarded.get_ip_info, except_Exception. rewrite Hbody. reflexivity.
    + destruct (derives_from_Exception e) eqn:He.
      * eapply handled_caught; [exact Hbody | exact He |].
        unfold Guarded.get_ip_info, except_Exception. rewrite Hbody, He.
        reflexivity.
      * eapply handled_escaped; [exact Hbody | exact He |].
        unfold Guarded.get_ip_info, except_Exception. rewrite Hbody, He.
        reflexivity.
  - destruct (test_ssh_connection_body E connection s) as [[d | e] s'] eqn:Hbody.
    + eapply handled_returned;
        [exact Hbody | | exact (test_body_status _ _ _ _ _ Hbody)].
      unfold Guarded.test_ssh_connection, except_Exception. rewrite Hbody.
      reflexivity.
    + destruct (derives_from_Exception e) eqn:He.
      * eapply handled_caught; [exact Hbody | exact He |].
        unfold Guarded.test_ssh_connection, except_Exception.
        rewrite Hbody, He. reflexivity.
      * eapply handled_escaped; [exact Hbody | exact He |].
        unfold Guarded.test_ssh_connection, except_Exception.
        rewrite Hbody, He. reflexivity.
  - destruct (execute_ssh_command_body E connection command s)
      as [[d | e] s'] eqn:Hbody.
    + eapply handled_returned;
        [exact Hbody | | exact (execute_body_status _ _ _ _ _ _ Hbody)].
      unfold Guarded.execute_ssh_command, except_Exception. rewrite Hbody.
      reflexivity.
    + destruct (derives_from_Exception e) eqn:He.
      * eapply handled_caught; [exact Hbody | exact He |].
        unfold Guarded.execute_ssh_command, except_Exception.
        rewrite Hbody, He. reflexivity.
      * eapply handled_escaped; [exact Hbody | exact He |].
        unfold Guarded.execute_ssh_command, except_Exception.
        rewrite Hbody, He. reflexivity.
Qed.

(** ** Each SSH coroutine works on a client of its own *)

Lemma names_only_first_call connection c :
  names_only c (first_library_call connection c).
Proof.
  unfold first_library_call, names_only.
  destruct (private_key connection) as [path |]; simpl;
    [destruct (String.eqb path "") |]; simpl; auto.
Qed.

Lemma test_session_events E connection s :
  session_events connection (test_ssh_connection E connection) s.
Proof.
  destruct (open_session_opened E connection s)
    as [_ (rest & Htrace & Hrest) (cl & Hclients & _ & Hok)].
  unfold session_events, events_of. rewrite test_by_session.
  destruct (open_session E connection s) as [[c | e] s1]; simpl in *.
  - destruct (Hok c eq_refl) as [-> _]. split.
    + exists (close_client cl). rewrite Hclients. apply alter_last.
    + eexists. split.
      * rewrite Htrace, <- app_assoc. simpl. apply drop_app_length.
      * apply Forall_app. split; [exact Hrest | quiet_events].
  - split; [eauto |]. eexists. split.
    + rewrite Htrace. apply drop_app_length.
    + exact Hrest.
Qed.

Lemma execute_session_events E connection command s :
  session_events connection (execute_ssh_command E connection command) s.
Proof.
  destruct (open_session_opened E connection s)
    as [_ (rest & Htrace & Hrest) (cl & Hclients & _ & Hok)].
  unfold session_events, events_of. rewrite execute_by_session.
  destruct (open_session E connection s) as [[c | e] s1]; simpl in *.
  - destruct (Hok c eq_refl) as [-> _].
    destruct (run_on_session_cases E (length (clients s)) command s1)
      as [e | io out err _ _ _ _]; simpl.
    + split; [eauto |]. eexists. split.
      * rewrite Htrace, <- app_assoc. simpl. apply drop_app_length.
      * apply Forall_app. split; [exact Hrest | quiet_events].
    + split.
      * exists (close_client cl). rewrite Hclients. apply alter_last.
      * eexists. split.
        -- rewrite Htrace, <- !app_assoc. simpl. apply drop_app_length.
        -- apply Forall_app. split; [exact Hrest | quiet_events].
  - split; [eauto |]. eexists. split.
    + rewrite Htrace. apply drop_app_length.
    + exact Hrest.
Qed.

Lemma session_makes_own_client {A} connection (m : M A) s :
  session_events connection m s -> makes_own_client m s.
Proof.
  intros [Hclients (rest & Hevents & Hrest)]. split; [exact Hclients |].
  eexists. split; [exact Hevents |].
  constructor; [apply names_only_first_call |].
  eapply Forall_impl; [exact Hrest |]. intros ev [Hev _]. exact Hev.
Qed.

(** C8: [active_connections] is the empty dictionary after every sequence
    of calls to the four coroutines; no coroutine reads it (with any other
    registry in its place each call returns the same result and leaves the
    same clients and trace); and [test_ssh_connection] and
    [execute_ssh_command] each create a new client and name no other. *)
Theorem registry_never_used (E : Env) :
  (forall cs, active_connections (run_calls E cs init) = ∅)
  /\ (forall c, blind (run_call E c))
  /\ (forall connection s,
        makes_own_client (test_ssh_connection E connection) s)
  /\ (forall connection command s,
        makes_own_client (execute_ssh_command E connection command) s).
Proof.
  split; [| split; [| split]].
  - intros cs. apply (continues_registry _ _ (continues_run_calls E cs init)).
  - apply blind_run_call.
  - intros. eapply session_makes_own_client, test_session_events.
  - intros. eapply session_makes_own_client, execute_session_events.
Qed.

(** ** [pipe] *)

Lemma dict_get_missing (d : dict) (k : string) (default : value) :
  dict_has d k = false -> dict_get d k default = default.
Proof.
  induction d as [| [k' v] d IH]; simpl; [reflexivity |].
  destruct (String.eqb k' k); simpl; [discriminate | exact IH].
Qed.

Lemma dict_get_found (d : dict) (k : string) (default v : value) :
  dict_get d k default = v -> v <> default ->
  dict_has d k = true /\ forall other, dict_get d k other = v.
Proof.
  induction d as [| [k' v'] d IH]; simpl; intros Hget Hne.
  - congruence.
  - destruct (String.eqb k' k); simpl; auto.
Qed.

(** C9: when the body has no "messages" entry, or an empty list there,
    [pipe] returns exactly [{"error": "No messages provided"}] and leaves the
    state as it was: no event is recorded, so there was no IP lookup and no
    SSH connection attempt. *)
Theorem pipe_without_messages (E : Env) (body : dict) (s : State) :
  dict_has body "messages" = false
  \/ dict_get body "messages" (VList []) = VList [] ->
  pipe E body s = (Ok [("error", VStr "No messages provided")], s)
  /\ events_of (pipe E body) s = [].
Proof.
  intros H.
  assert (Hget : dict_get body "messages" (VList []) = VList []).
  { destruct H as [H | H]; [apply dict_get_missing, H | exact H]. }
  assert (Hrun : pipe E body s = (Ok [("error", VStr "No messages provided")], s)).
  { unfold pipe, try_except. cbv zeta. rewrite Hget. reflexivity. }
  split; [exact Hrun |].
  apply events_of_app. rewrite Hrun. simpl. symmetry. apply app_nil_r.
Qed.

Lemma pipe_without_messages_witness :
  dict_has [("model", VStr "llama3")] "messages" = false
  /\ pipe lab [("model", VStr "llama3")] init
     = (Ok [("error", VStr "No messages provided")], init)
  /\ events_of (pipe lab [("model", VStr "llama3")]) init = [].
Proof.
  split; [reflexivity |].
  apply (pipe_without_messages lab [("model", VStr "llama3")] init).
  left. reflexivity.
Defined.

(** What [get_ip_info] does to the state: it returns, and adds events that
    are no calls into paramiko; the clients stay as they are. *)
Lemma get_ip_info_run E s :
  exists ip_info evs,
    get_ip_info E s
    = (Ok ip_info,
       {| active_connections := active_connections s;
          clients := clients s;
          trace := trace s ++ evs |})
    /\ forallb (fun ev => negb (is_ssh_event ev)) evs = true.
Proof.
  unfold get_ip_info, get_ip_info_body, try_except, bind,
    socket_gethostbyname_hostname, requests_get_json, logger_error, lift, ret,
    record_event.
  simpl.
  destruct (resolve_hostname E (trace s)) as [ip | e]; simpl.
  - destruct (http_get_json E _ ipify_url 5) as [response | e]; simpl.
    + destruct (py_get response "ip" (VStr "Unknown")) as [public | e]; simpl;
        do 2 eexists; (split; [rewrite ?trace_three, ?trace_two; reflexivity
                              | reflexivity]).
    + do 2 eexists; (split; [rewrite ?trace_three, ?trace_two; reflexivity
                            | reflexivity]).
  - do 2 eexists; (split; [rewrite ?trace_three, ?trace_two; reflexivity
                          | reflexivity]).
Qed.



(** ** Which way of authenticating is taken *)

Lemma path_taken_first_call connection c rest :
  path_taken (EvNewClient c :: first_library_call connection c :: rest)
  = Some (chosen_path connection).
Proof.
  unfold first_library_call, chosen_path. simpl.
  destruct (private_key connection) as [path |]; simpl;
    [destruct (String.eqb path "") |]; reflexivity.
Qed.

Lemma offers_password_first_call connection c :
  offers_password (first_library_call connection c)
  = negb (truthy_opt (private_key connection)).
Proof.
  unfold first_library_call. simpl.
  destruct (private_key connection) as [path |]; simpl;
    [destruct (String.eqb path "") |]; reflexivity.
Qed.

Lemma existsb_quiet c rest :
  Forall (quiet c) rest -> existsb offers_password rest = false.
Proof.
  induction 1 as [| ev rest [_ Hev] _ IH]; simpl; [reflexivity |].
  rewrite Hev, IH. reflexivity.
Qed.

Lemma session_events_path {A} connection (m : M A) s :
  session_events connection m s ->
  path_taken (events_of m s) = Some (chosen_path connection)
  /\ existsb offers_password (events_of m s)
     = negb (truthy_opt (private_key connection)).
Proof.
  intros [_ (rest & -> & Hrest)]. split.
  - apply path_taken_first_call.
  - cbn [existsb offers_password]. rewrite offers_password_first_call.
    rewrite (existsb_quiet _ _ Hrest). simpl. apply orb_false_r.
Qed.

(** C1, as the specification words it, fails for a connection whose
    [private_key] is the empty text: the password is used. *)
Lemma key_whenever_set_counterexample :
  ~ key_whenever_set lab empty_key_connection init.
Proof. unfold key_whenever_set. vm_compute. discriminate. Qed.

(** C1, amended: [test_ssh_connection] and [execute_ssh_command] take the
    key path exactly when [private_key] is a non-empty text: the key file at
    that path is loaded first, and no [connect] call is given a password,
    also when a password is set.  When [private_key] is absent or empty the
    first call is [connect] with the password. *)
Theorem authentication_path (E : Env) (connection : SSHConnection)
    (command : string) (s : State) :
  (path_taken (events_of (test_ssh_connection E connection) s)
   = Some (chosen_path connection)
   /\ existsb offers_password (events_of (test_ssh_connection E connection) s)
      = negb (truthy_opt (private_key connection)))
  /\ (path_taken (events_of (execute_ssh_command E connection command) s)
      = Some (chosen_path connection)
      /\ existsb offers_password
           (events_of (execute_ssh_command E connection command) s)
         = negb (truthy_opt (private_key connection))).
Proof.
  split.
  - eapply session_events_path, test_session_events.
  - eapply session_events_path, execute_session_events.
Qed.

(** ** No validation *)

(** C4, as the specification words it, fails for a connection without
    password and without key: [connect] is called, and when the server
    accepts a key of the agent the answer is "success". *)
Lemma validates_first_counterexample :
  ~ validates_first lab no_credentials init.
Proof.
  unfold validates_first. intros H.
  destruct (H eq_refl) as [Hstatus _]. vm_compute in Hstatus. discriminate.
Qed.

(** C4, amended: nothing is checked before the library is called.  For
    every connection, whatever its host, port and credentials,
    [test_ssh_connection] and [execute_ssh_command] create a client and make
    [first_library_call] at once: the key file is read when [private_key] is
    a non-empty text, and otherwise [connect] is called with the host, port,
    user name, password (which may be absent) and timeout as given. *)
Theorem connects_without_validation (E : Env) (connection : SSHConnection)
    (command : string) (s : State) :
  (exists rest,
     events_of (test_ssh_connection E connection) s
     = EvNewClient (length (clients s))
         :: first_library_call connection (length (clients s)) :: rest)
  /\ (exists rest,
        events_of (execute_ssh_command E connection command) s
        = EvNewClient (length (clients s))
            :: first_library_call connection (length (clients s)) :: rest).
Proof.
  split.
  - destruct (test_session_events E connection s) as [_ (rest & H & _)]. eauto.
  - destruct (execute_session_events E connection command s)
      as [_ (rest & H & _)]. eauto.
Qed.

(** ** [get_ip_info] is all or nothing *)




(** ** [execute_ssh_command] on an open session *)

(** C6, as the specification words it, fails for a command that writes
    leading whitespace: it is trimmed too. *)
Lemma trims_trailing_only_counterexample :
  ~ trims_trailing_only lab test_connection "echo '  hello'" init.
Proof.
  intros H.
  specialize (H _ _ _ _ eq_refl eq_refl eq_refl eq_refl).
  vm_compute in H. discriminate.
Qed.

(** C6, amended: on a session that opened, when [exec_command] returns and
    both streams are read to their end and hold UTF-8 text,
    [execute_ssh_command] answers with status "success", the decoded
    standard output under "output" and the decoded standard error under
    "error", each without its leading and its trailing whitespace, and the
    client is closed.  For "echo hello" that is "hello" and "". *)
Theorem execute_reads_and_strips (E : Env) (connection : SSHConnection)
    (command : string) (s s1 : State) (c : nat) (out err : list byte) :
  open_session E connection s = (Ok c, s1) ->
  ssh_exec E (trace s1) command = Ok (Ok out, Ok err) ->
  Text.utf8_valid (List.map Byte.to_N out) = true ->
  Text.utf8_valid (List.map Byte.to_N err) = true ->
  execute_ssh_command E connection command s
  = (Ok [("status", VStr "success");
         ("output", VStr (Text.strip (string_of_list_byte out)));
         ("error", VStr (Text.strip (string_of_list_byte err)))],
     snd (SSHClient_close c (record_event (EvExec c command) s1))).
Proof.
  intros Hopen Hexec Hout Herr.
  destruct (open_session_opened E connection s)
    as [_ _ (cl & Hclients & _ & Hok)].
  rewrite Hopen in Hclients, Hok. simpl in Hclients, Hok.
  destruct (Hok c eq_refl) as [-> Hactive].
  rewrite execute_by_session, Hopen.
  unfold try_except, run_on_session, bind, SSHClient_exec_command, lift.
  rewrite Hclients, lookup_last. simpl. rewrite Hactive, Hexec. simpl.
  rewrite Hout, Herr. reflexivity.
Qed.

Lemma execute_reads_and_strips_witness :
  fst (execute_ssh_command lab test_connection "echo hello" init)
  = Ok [("status", VStr "success"); ("output", VStr "hello"); ("error", VStr "")].
Proof.
  exact (f_equal fst
           (execute_reads_and_strips lab test_connection "echo hello" init
              (snd (open_session lab test_connection init)) 0%nat
              (list_byte_of_string "hello" ++ [x0a]) []
              eq_refl eq_refl eq_refl eq_refl)).
Defined.

(** ** A transport is left open *)

Lemma execute_success_status out err e :
  execute_success out err <> error_result e.
Proof. discriminate. Qed.

(** C2: the code does not close the client on the way out through
    [except].  Whenever the session opened and [execute_ssh_command] then
    answers with status "error", the last call recorded is [exec_command],
    no [close] followed, and the client still holds its active transport. *)
Theorem transport_left_open (E : Env) (connection : SSHConnection)
    (command : string) (s s1 : State) (c : nat) :
  open_session E connection s = (Ok c, s1) ->
  status_of (fst (execute_ssh_command E connection command s)) = error_status ->
  last (trace (snd (execute_ssh_command E connection command s)))
  = Some (EvExec c command)
  /\ clients (snd (execute_ssh_command E connection command s)) !! c
     = Some (mkClient Active 0)
  /\ In (mkClient Active 0)
       (open_transports (snd (execute_ssh_command E connection command s))).
Proof.
  intros Hopen Hstatus.
  destruct (open_session_opened E connection s)
    as [_ _ (cl & Hclients & Hreleases & Hok)].
  rewrite Hopen in Hclients, Hok. simpl in Hclients, Hok.
  destruct (Hok c eq_refl) as [-> Hactive].
  assert (Hcl : cl = mkClient Active 0).
  { destruct cl as [t n]. simpl in *. congruence. }
  subst cl.
  rewrite execute_by_session, Hopen in *.
  pose proof (run_on_session_cases E (length (clients s)) command s1) as Hrun.
  inversion Hrun as [e Heq | io out err _ _ _ _ Heq]; rewrite <- Heq in *.
  - simpl. split; [apply last_snoc |].
    assert (Hc : clients s1 !! length (clients s) = Some (mkClient Active 0)).
    { rewrite Hclients. apply lookup_last. }
    split; [exact Hc |].
    unfold open_transports. apply filter_In. split; [| reflexivity].
    simpl. apply list_elem_of_In. eapply list_elem_of_lookup_2, Hc.
  - discriminate Hstatus.
Qed.

Lemma transport_left_open_witness :
  fst (execute_ssh_command lab test_connection "printf '\377'" init)
  = Ok [("status", VStr "error");
        ("message",
         VStr "'utf-8' codec can't decode byte 0xff in position 0: invalid start byte")]
  /\ last (trace (snd (execute_ssh_command lab test_connection "printf '\377'" init)))
     = Some (EvExec 0 "printf '\377'")
  /\ clients (snd (execute_ssh_command lab test_connection "printf '\377'" init)) !! 0%nat
     = Some (mkClient Active 0)
  /\ In (mkClient Active 0)
       (open_transports
          (snd (execute_ssh_command lab test_connection "printf '\377'" init))).
Proof.
  split; [reflexivity |].
  apply (transport_left_open lab test_connection "printf '\377'" init
           (snd (open_session lab test_connection init)) 0%nat);
    reflexivity.
Defined.

(** In [test_ssh_connection] the same way out is taken when [connect]
    raises: a login rejected after the transport was started leaves it
    active. *)
Example test_rejected_login :
  test_ssh_connection rejecting test_connection init
  = (Ok [("status", VStr "error"); ("message", VStr "Authentication failed.")],
     {| active_connections := ∅;
        clients := [mkClient Active 0];
        trace := [EvNewClient 0;
                  EvConnect 0 "localhost" 22 "testuser"
                    (Password (Some "testpass")) 10] |}).
Proof. reflexivity. Qed.

(** ** Closing twice *)

Lemma close_client_twice cl : close_client (close_client cl) = close_client cl.
Proof. destruct cl as [[| |] n]; reflexivity. Qed.

(** C7: [close] is idempotent.  Closing a client and closing it again
    returns both times without an exception, and the second call is a no-op:
    it leaves every client, the released transport and its count of releases
    among them, and the registry exactly as the first call left them; only
    the call itself is recorded. *)
Theorem close_idempotent (c : nat) (s : State) :
  fst (SSHClient_close c s) = Ok tt
  /\ fst (SSHClient_close c (snd (SSHClient_close c s))) = Ok tt
  /\ snd (SSHClient_close c (snd (SSHClient_close c s)))
     = record_event (EvClose c) (snd (SSHClient_close c s))
  /\ (is_active <$> clients (snd (SSHClient_close c s)) !! c) <> Some true.
Proof.
  split; [reflexivity |]. split; [reflexivity |]. split.
  - unfold SSHClient_close, record_event, set_clients. simpl. f_equal.
    rewrite list_alter_alter_eq. apply list_alter_ext; [| reflexivity].
    intros cl _. apply close_client_twice.
  - unfold SSHClient_close. simpl. rewrite list_lookup_alter_eq.
    destruct (clients s !! c) as [[[| |] n] |]; cbv; discriminate.
Qed.

(** * Further properties of [example_tool.py] *)

(** ** [get_ip_info] *)

(** X1: [get_ip_info] answers with status "success" exactly when the host
    name resolved and the echo service returned a JSON object; a reply that
    is JSON but no object (a list, a text, null) gives status "error". *)
Theorem ip_info_success_iff (E : Env) (s : State) :
  status_of (fst (get_ip_info E s)) = success_status
  <-> exists ip d,
        resolve_hostname E (trace s) = Ok ip
        /\ http_get_json E (trace s ++ [EvResolveHostname]) ipify_url 5
           = Ok (VDict d).
Proof.
  unfold get_ip_info, get_ip_info_body, try_except, bind,
    socket_gethostbyname_hostname, requests_get_json, logger_error, lift, ret.
  simpl.
  destruct (resolve_hostname E (trace s)) as [ip | e]; simpl.
  - destruct (http_get_json E _ ipify_url 5) as [response | e]; simpl.
    + destruct response as [| b | n | t | l | d]; simpl;
        (split; [intros H; try discriminate H; eauto
                | intros (ip' & d' & _ & H); try discriminate H; reflexivity]).
    + split; [discriminate | intros (ip' & d' & _ & H); discriminate H].
  - split; [discriminate | intros (ip' & d' & H & _); discriminate H].
Qed.

(** X2: when both lookups succeed the answer carries the private address
    and, as public address, the "ip" entry of the reply as it came (any JSON
    value); a reply without that entry gives "Unknown", still with status
    "success".  The two lookups are the only events. *)
Theorem ip_info_public_fallback (E : Env) (s : State) (ip : string) (d : dict) :
  resolve_hostname E (trace s) = Ok ip ->
  http_get_json E (trace s ++ [EvResolveHostname]) ipify_url 5 = Ok (VDict d) ->
  get_ip_info E s
  = (Ok [("status", VStr "success");
         ("private_ip", VStr ip);
         ("public_ip", dict_get d "ip" (VStr "Unknown"))],
     after_events s [EvResolveHostname; EvHttpGet ipify_url 5]).
Proof.
  intros Hprivate Hpublic.
  unfold get_ip_info, get_ip_info_body, try_except, bind,
    socket_gethostbyname_hostname, requests_get_json, lift, ret.
  rewrite Hprivate. simpl. rewrite Hpublic. simpl.
  unfold after_events, record_event. simpl. rewrite trace_two. reflexivity.
Qed.

Lemma ip_info_public_fallback_witness :
  dict_has [("origin", VStr "203.0.113.7")] "ip" = false
  /\ fst (get_ip_info tight_lipped init)
     = Ok [("status", VStr "success");
           ("private_ip", VStr "192.168.1.20");
           ("public_ip", VStr "Unknown")].
Proof.
  split; [reflexivity |].
  exact (f_equal fst
           (ip_info_public_fallback tight_lipped init "192.168.1.20"
              [("origin", VStr "203.0.113.7")] eq_refl eq_refl)).
Defined.



(** ** Sessions *)

Lemma opened_client_active E connection s c s1 :
  open_session E connection s = (Ok c, s1) ->
  c = length (clients s) /\ clients s1 = clients s ++ [mkClient Active 0].
Proof.
  intros Hopen.
  destruct (open_session_opened E connection s)
    as [_ _ (cl & Hclients & Hreleases & Hok)].
  rewrite Hopen in Hclients, Hok. simpl in Hclients, Hok.
  destruct (Hok c eq_refl) as [-> Hactive]. split; [reflexivity |].
  destruct cl as [t n]. simpl in *. subst t n. exact Hclients.
Qed.

Lemma open_transports_app s cl :
  List.filter is_active (clients s ++ [cl])
  = open_transports s ++ (if is_active cl then [cl] else []).
Proof. unfold open_transports. rewrite List.filter_app. reflexivity. Qed.

(** X4: when [test_ssh_connection] answers with status "success" the
    client it created has been closed: its transport is released, once; the
    last call made is [close]; and the transports open afterwards are those
    that were open before. *)
Theorem test_success_closes (E : Env) (connection : SSHConnection) (s : State) :
  status_of (fst (test_ssh_connection E connection s)) = success_status ->
  clients (snd (test_ssh_connection E connection s))
  = clients s ++ [mkClient Released 1]
  /\ last (trace (snd (test_ssh_connection E connection s)))
     = Some (EvClose (length (clients s)))
  /\ open_transports (snd (test_ssh_connection E connection s))
     = open_transports s.
Proof.
  rewrite test_by_session.
  destruct (open_session E connection s) as [[c | e] s1] eqn:Hopen;
    simpl; [intros _ | discriminate].
  destruct (opened_client_active _ _ _ _ _ Hopen) as [-> Hclients].
  assert (Hafter : alter close_client (length (clients s)) (clients s1)
                   = clients s ++ [mkClient Released 1]).
  { rewrite Hclients, alter_last. reflexivity. }
  split; [exact Hafter |]. split; [apply last_snoc |].
  unfold open_transports at 1. simpl. rewrite Hafter.
  rewrite open_transports_app. simpl. apply app_nil_r.
Qed.

Lemma test_success_closes_witness :
  clients (snd (test_ssh_connection lab test_connection init))
  = clients init ++ [mkClient Released 1]
  /\ last (trace (snd (test_ssh_connection lab test_connection init)))
     = Some (EvClose (length (clients init)))
  /\ open_transports (snd (test_ssh_connection lab test_connection init))
     = open_transports init.
Proof. exact (test_success_closes lab test_connection init eq_refl). Defined.

(** X5: the same for [execute_ssh_command]: an answer with status
    "success" means the client was closed after the streams were read, its
    transport released once, with [close] as the last call and no transport
    open that was not open before. *)
Theorem execute_success_closes (E : Env) (connection : SSHConnection)
    (command : string) (s : State) :
  status_of (fst (execute_ssh_command E connection command s)) = success_status ->
  clients (snd (execute_ssh_command E connection command s))
  = clients s ++ [mkClient Released 1]
  /\ last (trace (snd (execute_ssh_command E connection command s)))
     = Some (EvClose (length (clients s)))
  /\ open_transports (snd (execute_ssh_command E connection command s))
     = open_transports s.
Proof.
  rewrite execute_by_session.
  destruct (open_session E connection s) as [[c | e] s1] eqn:Hopen;
    [| simpl; discriminate].
  destruct (opened_client_active _ _ _ _ _ Hopen) as [-> Hclients].
  cbv beta iota.
  destruct (run_on_session_cases E (length (clients s)) command s1)
    as [e | io out err _ _ _ _]; simpl; [discriminate | intros _].
  assert (Hafter : alter close_client (length (clients s)) (clients s1)
                   = clients s ++ [mkClient Released 1]).
  { rewrite Hclients, alter_last. reflexivity. }
  split; [exact Hafter |]. split; [apply last_snoc |].
  unfold open_transports at 1. simpl. rewrite Hafter.
  rewrite open_transports_app. simpl. apply app_nil_r.
Qed.

Lemma execute_success_closes_witness :
  clients (snd (execute_ssh_command lab test_connection "echo hello" init))
  = clients init ++ [mkClient Released 1]
  /\ last (trace (snd (execute_ssh_command lab test_connection "echo hello" init)))
     = Some (EvClose (length (clients init)))
  /\ open_transports (snd (execute_ssh_command lab test_connection "echo hello" init))
     = open_transports init.
Proof.
  exact (execute_success_closes lab test_connection "echo hello" init eq_refl).
Defined.



(** X7: a key that loads is the credential offered: the call after the
    reading of the key file is [connect] with that key and with the host,
    port, user name and timeout of the connection as given. *)
Theorem loaded_key_is_offered (E : Env) (connection : SSHConnection)
    (command path key : string) (s : State) :
  private_key connection = Some path ->
  path <> "" ->
  load_key E (trace s ++ [EvNewClient (length (clients s))]) path = Ok key ->
  (exists rest,
     events_of (test_ssh_connection E connection) s
     = [EvNewClient (length (clients s));
        EvLoadKey path;
        EvConnect (length (clients s)) (host connection) (port connection)
          (username connection) (PKey key) (timeout connection)] ++ rest)
  /\ (exists rest,
        events_of (execute_ssh_command E connection command) s
        = [EvNewClient (length (clients s));
           EvLoadKey path;
           EvConnect (length (clients s)) (host connection) (port connection)
             (username connection) (PKey key) (timeout connection)] ++ rest).
Proof.
  intros Hkey Hpath Hload. apply String.eqb_neq in Hpath.
  assert (Hopen : exists r cl,
             open_session E connection s
             = (r, session_state s cl
                     [EvNewClient (length (clients s));
                      EvLoadKey path;
                      EvConnect (length (clients s)) (host connection)
                        (port connection) (username connection) (PKey key)
                        (timeout connection)])).
  { unfold open_session, connect_client, bind, set_missing_host_key_policy,
      ret, SSHClient_new, RSAKey_from_private_key_file, SSHClient_connect.
    rewrite Hkey. simpl. rewrite Hpath. simpl. rewrite Hload. simpl.
    destruct (ssh_connect E _ _ _ _ (PKey key) _) as [| e' [|]]; simpl;
      do 2 eexists; unfold session_state, record_event; simpl;
      rewrite ?alter_last, trace_three; reflexivity. }
  destruct Hopen as (r & cl & Hopen). split.
  - unfold events_of. rewrite test_by_session, Hopen.
    destruct r as [c | e]; simpl.
    + exists [EvClose c]. rewrite <- app_assoc. apply drop_app_length.
    + exists []. apply drop_app_length.
  - unfold events_of. rewrite execute_by_session, Hopen.
    destruct r as [c | e]; simpl.
    + destruct (run_on_session_cases E c command
                  (session_state s cl
                     [EvNewClient (length (clients s));
                      EvLoadKey path;
                      EvConnect (length (clients s)) (host connection)
                        (port connection) (username connection) (PKey key)
                        (timeout connection)]))
        as [e | io out err _ _ _ _]; simpl.
      * exists [EvExec c command]. rewrite <- app_assoc. apply drop_app_length.
      * exists [EvExec c command; EvClose c]. rewrite <- !app_assoc.
        apply drop_app_length.
    + exists []. apply drop_app_length.
Qed.

Lemma loaded_key_is_offered_witness :
  (exists rest,
     events_of (test_ssh_connection lab key_and_password_connection) init
     = [EvNewClient 0;
        EvLoadKey "/home/testuser/.ssh/id_rsa";
        EvConnect 0 "localhost" 22 "testuser"
          (PKey "RSA:/home/testuser/.ssh/id_rsa") 10] ++ rest)
  /\ (exists rest,
        events_of (execute_ssh_command lab key_and_password_connection "uptime") init
        = [EvNewClient 0;
           EvLoadKey "/home/testuser/.ssh/id_rsa";
           EvConnect 0 "localhost" 22 "testuser"
             (PKey "RSA:/home/testuser/.ssh/id_rsa") 10] ++ rest).
Proof.
  apply (loaded_key_is_offered lab key_and_password_connection "uptime"
           "/home/testuser/.ssh/id_rsa" "RSA:/home/testuser/.ssh/id_rsa" init);
    [reflexivity | discriminate | reflexivity].
Defined.

(** ** Clients over a sequence of calls *)

Lemma adds_nothing {A} (m : M A) :
  (forall s, clients (snd (m s)) = clients s) -> adds_clients 0 m.
Proof.
  intros H s. exists []. rewrite H, app_nil_r. repeat split; constructor.
Qed.

Lemma adds_weaken {A} (n n' : nat) (m : M A) :
  (n <= n')%nat -> adds_clients n m -> adds_clients n' m.
Proof.
  intros Hn Hm s. destruct (Hm s) as (new & Hc & Hs & Hl).
  exists new. repeat split; [exact Hc | exact Hs | lia].
Qed.

Lemma adds_bind {A B} (n1 n2 : nat) (m : M A) (k : A -> M B) :
  adds_clients n1 m -> (forall a, adds_clients n2 (k a)) ->
  adds_clients (n1 + n2) (bind m k).
Proof.
  intros Hm Hk s. unfold bind.
  destruct (Hm s) as (new1 & Hc1 & Hs1 & Hl1).
  destruct (m s) as [[a | e] s1]; simpl in *.
  - destruct (Hk a s1) as (new2 & Hc2 & Hs2 & Hl2).
    exists (new1 ++ new2). rewrite Hc2, Hc1, <- app_assoc.
    repeat split; [apply Forall_app; auto | rewrite length_app; lia].
  - exists new1. repeat split; [exact Hc1 | exact Hs1 | lia].
Qed.

Lemma adds_bind_after {A B} (n : nat) (m : M A) (k : A -> M B) :
  adds_clients 0 m -> (forall a, adds_clients n (k a)) ->
  adds_clients n (bind m k).
Proof. intros Hm Hk. apply (adds_bind 0 n); assumption. Qed.

Lemma adds_bind_before {A B} (n : nat) (m : M A) (k : A -> M B) :
  adds_clients n m -> (forall a, adds_clients 0 (k a)) ->
  adds_clients n (bind m k).
Proof.
  intros Hm Hk. apply (adds_weaken (n + 0)); [lia |].
  apply adds_bind; assumption.
Qed.

Lemma adds_try_except {A} (n : nat) (m : M A) (h : Exn -> M A) :
  adds_clients n m -> (forall e, adds_clients 0 (h e)) ->
  adds_clients n (try_except m h).
Proof.
  intros Hm Hh s. unfold try_except.
  destruct (Hm s) as (new1 & Hc1 & Hs1 & Hl1).
  destruct (m s) as [[a | e] s1]; simpl in *.
  - exists new1. auto.
  - destruct (Hh e s1) as (new2 & Hc2 & Hs2 & Hl2).
    exists (new1 ++ new2). rewrite Hc2, Hc1, <- app_assoc.
    repeat split; [apply Forall_app; auto | rewrite length_app; lia].
Qed.

Lemma adds_if {A} (n : nat) (b : bool) (m1 m2 : M A) :
  adds_clients n m1 -> adds_clients n m2 ->
  adds_clients n (if b then m1 else m2).
Proof. destruct b; auto. Qed.

Lemma adds_ret {A} (n : nat) (a : A) : adds_clients n (ret a).
Proof. apply (adds_weaken 0); [lia |]. apply adds_nothing. reflexivity. Qed.

Lemma adds_lift {A} (n : nat) (r : result A) : adds_clients n (lift r).
Proof. apply (adds_weaken 0); [lia |]. apply adds_nothing. reflexivity. Qed.

Lemma adds_getenv E (n : nat) name : adds_clients n (os_getenv E name).
Proof. apply (adds_weaken 0); [lia |]. apply adds_nothing. reflexivity. Qed.

Lemma adds_logger_error (n : nat) text : adds_clients n (logger_error text).
Proof. apply (adds_weaken 0); [lia |]. apply adds_nothing. reflexivity. Qed.

Lemma adds_get_ip_info E (n : nat) : adds_clients n (get_ip_info E).
Proof.
  apply (adds_weaken 0); [lia |]. apply adds_nothing. intros s.
  destruct (get_ip_info_run E s) as (d & evs & -> & _). reflexivity.
Qed.

(** The client [open_session] adds: without a transport, or with an active
    one, and with an active one when the session opened. *)
Lemma open_session_client E connection s :
  exists cl,
    clients (snd (open_session E connection s)) = clients s ++ [cl]
    /\ (cl = mkClient NoTransport 0 \/ cl = mkClient Active 0)
    /\ (forall c, fst (open_session E connection s) = Ok c ->
                  c = length (clients s) /\ cl = mkClient Active 0).
Proof.
  unfold open_session, connect_client, bind, set_missing_host_key_policy, ret,
    SSHClient_new, RSAKey_from_private_key_file, SSHClient_connect.
  destruct (private_key connection) as [path |]; simpl;
    [destruct (String.eqb path ""); simpl;
     [| destruct (load_key E _ path) as [key | e]; simpl] |];
    repeat match goal with
      | |- context [ssh_connect E ?t ?h ?p ?u ?a ?tm] =>
          destruct (ssh_connect E t h p u a tm) as [| e' [|]]; simpl
      end;
    rewrite ?alter_last;
    (eexists; split; [reflexivity |];
     split; [auto | intros c Hc; inversion Hc; auto]).
Qed.

Lemma adds_test E connection : adds_clients 1 (test_ssh_connection E connection).
Proof.
  intros s. rewrite test_by_session.
  destruct (open_session_client E connection s) as (cl & Hclients & Hcl & Hok).
  destruct (open_session E connection s) as [[c | e] s1]; simpl in *.
  - destruct (Hok c eq_refl) as [-> ->].
    exists [mkClient Released 1]. rewrite Hclients, alter_last.
    repeat split; [| simpl; lia].
    constructor; [right; right; reflexivity | constructor].
  - exists [cl]. repeat split; [exact Hclients | | simpl; lia].
    constructor; [destruct Hcl; [left | right; left]; assumption | constructor].
Qed.

Lemma adds_execute E connection command :
  adds_clients 1 (execute_ssh_command E connection command).
Proof.
  intros s. rewrite execute_by_session.
  destruct (open_session_client E connection s) as (cl & Hclients & Hcl & Hok).
  destruct (open_session E connection s) as [[c | e] s1]; simpl in *.
  - destruct (Hok c eq_refl) as [-> ->].
    destruct (run_on_session_cases E (length (clients s)) command s1)
      as [e | io out err _ _ _ _]; simpl.
    + exists [mkClient Active 0]. repeat split; [exact Hclients | | simpl; lia].
      constructor; [right; left; reflexivity | constructor].
    + exists [mkClient Released 1]. rewrite Hclients, alter_last.
      repeat split; [| simpl; lia].
      constructor; [right; right; reflexivity | constructor].
  - exists [cl]. repeat split; [exact Hclients | | simpl; lia].
    constructor; [destruct Hcl; [left | right; left]; assumption | constructor].
Qed.

Ltac adds_step :=
  match goal with
  | |- adds_clients _ (try_except _ _) => apply adds_try_except; [| intros ?]
  | |- adds_clients _ (let _ := _ in _) => cbv zeta
  | |- adds_clients _ (if ?b then _ else _) => apply adds_if
  | |- adds_clients _ (ret _) => apply adds_ret
  | |- adds_clients _ (lift _) => apply adds_lift
  | |- adds_clients _ (os_getenv _ _) => apply adds_getenv
  | |- adds_clients _ (logger_error _) => apply adds_logger_error
  | |- adds_clients _ (get_ip_info _) => apply adds_get_ip_info
  | |- adds_clients _ (test_ssh_connection _ _) => apply adds_test
  | |- adds_clients _ (execute_ssh_command _ _ _) => apply adds_execute
  | |- adds_clients _ (bind (lift _) _) => apply adds_bind_after; [| intros ?]
  | |- adds_clients _ (bind (os_getenv _ _) _) =>
      apply adds_bind_after; [| intros ?]
  | |- adds_clients _ (bind (logger_error _) _) =>
      apply adds_bind_after; [| intros ?]
  | |- adds_clients _ (bind _ _) => apply adds_bind_before; [| intros ?]
  end.

Lemma adds_pipe E body : adds_clients 1 (pipe E body).
Proof. unfold pipe. repeat adds_step. Qed.

Lemma adds_run_call E c : adds_clients 1 (run_call E c).
Proof.
  destruct c; simpl;
    [apply adds_get_ip_info | apply adds_test | apply adds_execute
    | apply adds_pipe].
Qed.

(** X8: over any sequence of calls to the four coroutines, from any state,
    the clients that existed stay exactly as they were (no later call
    connects, uses or closes an earlier client), every call adds at most one
    client, and each new client is left in one of three conditions: never
    connected, connected and still open, or closed with its transport
    released exactly once. *)
Theorem clients_only_grow (E : Env) (cs : list call) (s : State) :
  exists new,
    clients (run_calls E cs s) = clients s ++ new
    /\ Forall settled new
    /\ (length new <= length cs)%nat.
Proof.
  revert s. induction cs as [| c cs IH]; intros s; simpl.
  - exists []. rewrite app_nil_r. repeat split; constructor.
  - destruct (adds_run_call E c s) as (new1 & Hc1 & Hs1 & Hl1).
    destruct (IH (snd (run_call E c s))) as (new2 & Hc2 & Hs2 & Hl2).
    exists (new1 ++ new2). rewrite Hc2, Hc1, <- app_assoc.
    repeat split; [apply Forall_app; auto | rewrite length_app; lia].
Qed.

Lemma settled_open (new : list client) :
  Forall settled new ->
  Forall (fun cl => cl = mkClient Active 0) (List.filter is_active new).
Proof.
  induction 1 as [| cl new Hcl _ IH]; simpl; [constructor |].
  destruct Hcl as [-> | [-> | ->]]; simpl; auto.
Qed.

Lemma run_call_open_transports E c s :
  exists more,
    open_transports (snd (run_call E c s)) = open_transports s ++ more
    /\ Forall (fun cl => cl = mkClient Active 0) more.
Proof.
  destruct (adds_run_call E c s) as (new & Hclients & Hsettled & _).
  exists (List.filter is_active new). split.
  - unfold open_transports. rewrite Hclients. apply List.filter_app.
  - apply settled_open, Hsettled.
Qed.

(** X9: a transport that is open stays open: after any sequence of calls
    the open transports are those that were open before, in the same order,
    followed by the ones the calls left open.  Nothing closes a transport
    that an earlier call leaked. *)
Theorem open_transports_persist (E : Env) (cs : list call) (s : State) :
  exists more,
    open_transports (run_calls E cs s) = open_transports s ++ more
    /\ Forall (fun cl => cl = mkClient Active 0) more.
Proof.
  revert s. induction cs as [| c cs IH]; intros s; simpl.
  - exists []. rewrite app_nil_r. split; constructor.
  - destruct (run_call_open_transports E c s) as (more1 & H1 & Hm1).
    destruct (IH (snd (run_call E c s))) as (more2 & H2 & Hm2).
    exists (more1 ++ more2). rewrite H2, H1, <- app_assoc.
    split; [reflexivity | apply Forall_app; auto].
Qed.

(** ** [pipe]: the branches the claims leave out *)

Lemma test_returns E connection s :
  exists result s', test_ssh_connection E connection s = (Ok result, s').
Proof.
  rewrite test_by_session.
  destruct (open_session E connection s) as [[c | e] s1]; eauto.
Qed.

Lemma execute_returns E connection command s :
  exists result s',
    execute_ssh_command E connection command s = (Ok result, s').
Proof.
  rewrite execute_by_session.
  destruct (open_session E connection s) as [[c | e] s1]; [| eauto].
  destruct (run_on_session_cases E c command s1); eauto.
Qed.

(** X10: when the content of the last message contains neither "ip" nor
    "ssh" (in any case of letters), and also when that message has no
    content at all, [pipe] returns the body as it came and does nothing
    else: no lookup, no connection, no log line. *)
Theorem pipe_other_content (E : Env) (body : dict) (ms : list value)
    (m : dict) (content : string) (s : State) :
  dict_get body "messages" (VList []) = VList ms ->
  last ms = Some (VDict m) ->
  dict_get m "content" (VStr "") = VStr content ->
  Text.contains "ip" (Text.lower content) = false ->
  Text.contains "ssh" (Text.lower content) = false ->
  pipe E body s = (Ok body, s).
Proof.
  intros Hmessages Hlast Hcontent Hip Hssh.
  unfold pipe, try_except, bind, lift. cbv zeta. rewrite Hmessages.
  destruct ms as [| m0 ms0]; [discriminate |].
  cbn [truthy negb py_last]. rewrite Hlast.
  cbn [py_get]. rewrite Hcontent. cbn [py_lower]. rewrite Hip, Hssh.
  reflexivity.
Qed.

Lemma pipe_other_content_witness :
  dict_get [("role", VStr "user")] "content" (VStr "") = VStr ""
  /\ pipe lab [("messages", VList [VDict [("role", VStr "user")]])] init
     = (Ok [("messages", VList [VDict [("role", VStr "user")]])], init).
Proof.
  split; [reflexivity |].
  apply (pipe_other_content lab
           [("messages", VList [VDict [("role", VStr "user")]])]
           [VDict [("role", VStr "user")]] [("role", VStr "user")] "" init);
    reflexivity.
Defined.

(** The events of a session opened with a password. *)
Lemma open_session_by_password E connection s :
  private_key connection = None ->
  exists r cl,
    open_session E connection s
    = (r, session_state s cl
            [EvNewClient (length (clients s));
             EvConnect (length (clients s)) (host connection)
               (port connection) (username connection)
               (Password (password connection)) (timeout connection)]).
Proof.
  intros Hkey.
  unfold open_session, connect_client, bind, set_missing_host_key_policy, ret,
    SSHClient_new, SSHClient_connect.
  rewrite Hkey. simpl.
  destruct (ssh_connect E _ _ _ _ _ _) as [| e' [|]]; simpl;
    do 2 eexists; unfold session_state, record_event; simpl;
    rewrite ?alter_last, trace_two; reflexivity.
Qed.

Lemma test_by_password_events E connection s :
  private_key connection = None ->
  exists rest,
    events_of (test_ssh_connection E connection) s
    = [EvNewClient (length (clients s));
       EvConnect (length (clients s)) (host connection) (port connection)
         (username connection) (Password (password connection))
         (timeout connection)] ++ rest
    /\ (rest = [] \/ rest = [EvClose (length (clients s))]).
Proof.
  intros Hkey.
  destruct (open_session_by_password E connection s Hkey) as (r & cl & Hopen).
  pose proof (open_session_client E connection s) as (cl' & _ & _ & Hok).
  unfold events_of. rewrite test_by_session. rewrite Hopen in *.
  destruct r as [c | e]; simpl in *.
  - destruct (Hok c eq_refl) as [-> _].
    eexists. split; [| right; reflexivity].
    rewrite <- app_assoc. apply drop_app_length.
  - exists []. split; [apply drop_app_length | left; reflexivity].
Qed.

Lemma execute_by_password_events E connection command s :
  private_key connection = None ->
  exists rest,
    events_of (execute_ssh_command E connection command) s
    = [EvNewClient (length (clients s));
       EvConnect (length (clients s)) (host connection) (port connection)
         (username connection) (Password (password connection))
         (timeout connection)] ++ rest
    /\ (rest = []
        \/ rest = [EvExec (length (clients s)) command]
        \/ rest = [EvExec (length (clients s)) command;
                   EvClose (length (clients s))]).
Proof.
  intros Hkey.
  destruct (open_session_by_password E connection s Hkey) as (r & cl & Hopen).
  pose proof (open_session_client E connection s) as (cl' & _ & _ & Hok).
  unfold events_of. rewrite execute_by_session. rewrite Hopen in *.
  destruct r as [c | e]; simpl in *.
  - destruct (Hok c eq_refl) as [-> _].
    match goal with
    | |- context [try_except ?m ?h ?st] =>
        destruct (run_on_session_cases E (length (clients s)) command st)
          as [e | io out err _ _ _ _]
    end; simpl.
    + eexists. split; [| right; left; reflexivity].
      rewrite <- app_assoc. apply drop_app_length.
    + eexists. split; [| right; right; reflexivity].
      rewrite <- !app_assoc. apply drop_app_length.
  - exists []. split; [apply drop_app_length | left; reflexivity].
Qed.



(** ** [pipe] takes its connection from the environment *)

Lemma emits_nothing (Q : event -> Prop) {A} (m : M A) :
  (forall s, trace (snd (m s)) = trace s) -> emits Q m.
Proof. intros H s. exists []. rewrite H, app_nil_r. split; constructor. Qed.

Lemma emits_bind (Q : event -> Prop) {A B} (m : M A) (k : A -> M B) :
  emits Q m -> (forall a, emits Q (k a)) -> emits Q (bind m k).
Proof.
  intros Hm Hk s. unfold bind. destruct (Hm s) as (evs1 & Ht1 & Hq1).
  destruct (m s) as [[a | e] s1]; simpl in *.
  - destruct (Hk a s1) as (evs2 & Ht2 & Hq2).
    exists (evs1 ++ evs2). rewrite Ht2, Ht1, <- app_assoc.
    split; [reflexivity | apply Forall_app; auto].
  - eauto.
Qed.

Lemma emits_try_except (Q : event -> Prop) {A} (m : M A) (h : Exn -> M A) :
  emits Q m -> (forall e, emits Q (h e)) -> emits Q (try_except m h).
Proof.
  intros Hm Hh s. unfold try_except. destruct (Hm s) as (evs1 & Ht1 & Hq1).
  destruct (m s) as [[a | e] s1]; simpl in *.
  - eauto.
  - destruct (Hh e s1) as (evs2 & Ht2 & Hq2).
    exists (evs1 ++ evs2). rewrite Ht2, Ht1, <- app_assoc.
    split; [reflexivity | apply Forall_app; auto].
Qed.

Lemma emits_if (Q : event -> Prop) {A} (b : bool) (m1 m2 : M A) :
  emits Q m1 -> emits Q m2 -> emits Q (if b then m1 else m2).
Proof. destruct b; auto. Qed.

Lemma emits_events_of (Q : event -> Prop) {A} (m : M A) (s : State) :
  steady m -> Forall Q (events_of m s) -> 
  exists evs, trace (snd (m s)) = trace s ++ evs /\ Forall Q evs.
Proof.
  intros Hm Hq. destruct (continues_trace _ _ (Hm s)) as (evs & Ht).
  exists evs. split; [exact Ht |].
  rewrite (events_of_app m s evs Ht) in Hq. exact Hq.
Qed.

Lemma emits_logger_error E text : emits (from_environment E) (logger_error text).
Proof.
  intros s. exists [EvLog text]. split; [reflexivity |].
  constructor; [exact I | constructor].
Qed.

Lemma emits_get_ip_info E : emits (from_environment E) (get_ip_info E).
Proof.
  intros s.
  unfold get_ip_info, get_ip_info_body, try_except, bind,
    socket_gethostbyname_hostname, requests_get_json, logger_error, lift, ret,
    record_event.
  simpl.
  destruct (resolve_hostname E (trace s)) as [ip | e]; simpl;
    [destruct (http_get_json E _ ipify_url 5) as [response | e]; simpl;
     [destruct (py_get response "ip" (VStr "Unknown")) as [public | e]; simpl |]
    |];
    (eexists; split;
     [rewrite ?trace_three, ?trace_two; reflexivity
     | repeat (constructor; [simpl; auto |]); constructor]).
Qed.

Lemma emits_test_env E : emits (from_environment E) (test_ssh_connection E (env_connection E)).
Proof.
  intros s. apply emits_events_of; [apply steady_test |].
  destruct (test_by_password_events E (env_connection E) s eq_refl)
    as (rest & -> & Hrest).
  simpl. constructor; [exact I |]. constructor; [simpl; auto |].
  destruct Hrest as [-> | ->]; repeat constructor.
Qed.

Lemma emits_execute_env E command :
  emits (from_environment E) (execute_ssh_command E (env_connection E) command).
Proof.
  intros s. apply emits_events_of; [apply steady_execute |].
  destruct (execute_by_password_events E (env_connection E) command s eq_refl)
    as (rest & -> & Hrest).
  simpl. constructor; [exact I |]. constructor; [simpl; auto |].
  destruct Hrest as [-> | [-> | ->]]; repeat constructor.
Qed.

Lemma emits_bind_getenv (Q : event -> Prop) {B} E name
    (k : option string -> M B) :
  emits Q (k (getenv E name)) -> emits Q (bind (os_getenv E name) k).
Proof. intros Hk s. exact (Hk s). Qed.

Ltac emits_step :=
  match goal with
  | |- emits _ (try_except _ _) => apply emits_try_except; [| intros ?]
  | |- emits _ (bind (os_getenv _ _) _) => apply emits_bind_getenv
  | |- emits _ (bind _ _) => apply emits_bind; [| intros ?]
  | |- emits _ (let _ := _ in _) => cbv zeta
  | |- emits _ (if ?b then _ else _) => apply emits_if
  | |- emits _ (ret _) => apply emits_nothing; reflexivity
  | |- emits _ (lift _) => apply emits_nothing; reflexivity
  | |- emits _ (os_getenv _ _) => apply emits_nothing; reflexivity
  | |- emits _ (logger_error _) => apply emits_logger_error
  | |- emits _ (get_ip_info _) => apply emits_get_ip_info
  | |- emits _ (test_ssh_connection _ _) => apply emits_test_env
  | |- emits _ (execute_ssh_command _ _ _) => apply emits_execute_env
  end.

(** X12: whatever the body says, [pipe] never reads a key file, and every
    connection it attempts goes to the host named by SSH_HOST ("localhost"
    when unset), on port 22, as the user named by SSH_USER ("user" when
    unset), with the password in SSH_PASS (none when unset) and a timeout of
    10; its only HTTP request goes to the echo service with a timeout of 5.
    Nothing of the connection is taken from the messages. *)
Theorem pipe_connects_from_environment (E : Env) (body : dict) (s : State) :
  Forall (from_environment E) (events_of (pipe E body) s).
Proof.
  assert (H : emits (from_environment E) (pipe E body)).
  { unfold pipe. repeat emits_step. }
  destruct (H s) as (evs & Htrace & Hevs).
  rewrite (events_of_app _ _ _ Htrace). exact Hevs.
Qed.

(** ** The answers of [pipe] *)




(** X14: a last message whose content is not a text (null, a number, a list
    of parts, an object) makes [pipe] answer with an error dictionary that
    carries the interpreter's complaint about [lower]; the failure is
    logged, and no lookup and no connection is made, even if a text inside
    the content mentions "ip" or "ssh". *)
Theorem pipe_content_not_text (E : Env) (body : dict) (ms : list value)
    (m : dict) (content : value) (s : State) :
  dict_get body "messages" (VList []) = VList ms ->
  last ms = Some (VDict m) ->
  dict_get m "content" (VStr "") = content ->
  (forall text, content <> VStr text) ->
  pipe E body s
  = (Ok [("error",
          VStr ("'" +:+ type_name content +:+ "' object has no attribute 'lower'"))],
     after_events s
       [EvLog ("Pipe error: '" +:+ type_name content
               +:+ "' object has no attribute 'lower'")]).
Proof.
  intros Hmessages Hlast Hcontent Htext.
  unfold pipe, try_except, bind, lift. cbv zeta. rewrite Hmessages.
  destruct ms as [| m0 ms0]; [discriminate |].
  cbn [truthy negb py_last]. rewrite Hlast.
  cbn [py_get]. rewrite Hcontent.
  destruct content as [| b | n | t | l | d];
    try reflexivity.
  exfalso. apply (Htext t). reflexivity.
Qed.

Lemma pipe_content_not_text_witness :
  pipe lab multipart_body init
  = (Ok [("error", VStr "'list' object has no attribute 'lower'")],
     after_events init
       [EvLog "Pipe error: 'list' object has no attribute 'lower'"]).
Proof.
  apply (pipe_content_not_text lab multipart_body
           [VDict [("role", VStr "user");
                   ("content",
                    VList [VDict [("type", VStr "text");
                                  ("text", VStr "what is my ip")]])]]
           [("role", VStr "user");
            ("content",
             VList [VDict [("type", VStr "text");
                           ("text", VStr "what is my ip")]])]
           (VList [VDict [("type", VStr "text");
                          ("text", VStr "what is my ip")]]) init);
    [reflexivity | reflexivity | reflexivity | discriminate].
Defined.

(** ** Where [split] cuts *)

Lemma append_cons (a : ascii) (s r : string) :
  String a s +:+ r = String a (s +:+ r).
Proof. reflexivity. Qed.

Lemma append_empty_l (r : string) : "" +:+ r = r.
Proof. reflexivity. Qed.

Lemma append_empty_r (s : string) : s +:+ "" = s.
Proof.
  induction s as [| a s IH]; [reflexivity |].
  rewrite append_cons, IH. reflexivity.
Qed.

Lemma rev_app_append (cur acc r : string) :
  Text.string_rev_app cur acc +:+ r = Text.string_rev_app cur (acc +:+ r).
Proof.
  revert acc. induction cur as [| a cur IH]; intros acc; simpl;
    [reflexivity | apply IH].
Qed.



Lemma contains_cons (needle : string) (a : ascii) (s : string) :
  Text.contains needle (String a s)
  = Text.prefix needle (String a s) || Text.contains needle s.
Proof. reflexivity. Qed.




(** Without an occurrence of the separator the text is the only piece. *)
Lemma split_go_none (sep cur s : string) :
  Text.contains sep s = false ->
  Text.split_go sep 0 cur s = [Text.string_rev_app cur "" +:+ s].
Proof.
  revert cur. induction s as [| a s IH]; intros cur H.
  - simpl. rewrite append_empty_r. reflexivity.
  - rewrite contains_cons in H. apply orb_false_iff in H as [Hp Hc].
    cbn [Text.split_go]. rewrite Hp, (IH _ Hc). simpl.
    rewrite !rev_app_append. reflexivity.
Qed.

Lemma split_none (sep s : string) :
  Text.contains sep s = false -> Text.split sep s = [s].
Proof.
  intros H. unfold Text.split. rewrite (split_go_none _ _ _ H). reflexivity.
Qed.






(** ** The command [pipe] runs *)



(** X16: "ssh" is looked for in the lowered content and cut out of the
    content as written.  When the content has "ssh" only with capital
    letters (and neither "ip" nor "test"), [split] finds nothing to cut at,
    the second piece does not exist, and [pipe] answers with the error
    "list index out of range": no client is created, nothing is appended,
    and the failure is logged. *)
Theorem pipe_capital_ssh (E : Env) (body : dict) (ms : list value) (m : dict)
    (content : string) (s : State) :
  dict_get body "messages" (VList []) = VList ms ->
  last ms = Some (VDict m) ->
  dict_get m "content" (VStr "") = VStr content ->
  Text.contains "ip" (Text.lower content) = false ->
  Text.contains "ssh" (Text.lower content) = true ->
  Text.contains "test" (Text.lower content) = false ->
  Text.contains "ssh" content = false ->
  pipe E body s
  = (Ok [("error", VStr "list index out of range")],
     after_events s [EvLog "Pipe error: list index out of range"]).
Proof.
  intros Hmessages Hlast Hcontent Hip Hssh Htest Hwritten.
  unfold pipe, try_except, bind, lift, os_getenv. cbv zeta. rewrite Hmessages.
  destruct ms as [| m0 ms0]; [discriminate |].
  cbn [truthy negb py_last]. rewrite Hlast.
  cbn [py_get]. rewrite Hcontent. cbn [py_lower]. rewrite Hip, Hssh, Htest.
  cbn [py_split_second_strip]. rewrite (split_none _ _ Hwritten).
  reflexivity.
Qed.

Lemma pipe_capital_ssh_witness :
  pipe lab (user_says "SSH uptime") init
  = (Ok [("error", VStr "list index out of range")],
     after_events init [EvLog "Pipe error: list index out of range"]).
Proof.
  apply (pipe_capital_ssh lab (user_says "SSH uptime")
           [VDict [("role", VStr "user"); ("content", VStr "SSH uptime")]]
           [("role", VStr "user"); ("content", VStr "SSH uptime")]
           "SSH uptime" init);
    reflexivity.
Defined.

(** ** One command, as given *)

Lemma open_session_no_exec E connection s :
  exists evs,
    trace (snd (open_session E connection s)) = trace s ++ evs
    /\ List.filter is_exec evs = [].
Proof.
  unfold open_session, connect_client, bind, set_missing_host_key_policy, ret,
    SSHClient_new, RSAKey_from_private_key_file, SSHClient_connect.
  destruct (private_key connection) as [path |]; simpl;
    [destruct (String.eqb path ""); simpl;
     [| destruct (load_key E _ path) as [key | e]; simpl] |];
    repeat match goal with
      | |- context [ssh_connect E ?t ?h ?p ?u ?a ?tm] =>
          destruct (ssh_connect E t h p u a tm) as [| e' [|]]; simpl
      end;
    (eexists; split;
     [rewrite ?trace_three, ?trace_two; reflexivity | reflexivity]).
Qed.

(** X17: [execute_ssh_command] hands the command to [exec_command] exactly
    as it received it, and exactly once, when the session opened; when the
    session did not open nothing is executed.  [test_ssh_connection] never
    executes anything. *)
Theorem command_runs_once_as_given (E : Env) (connection : SSHConnection)
    (command : string) (s : State) :
  List.filter is_exec (events_of (execute_ssh_command E connection command) s)
  = match fst (open_session E connection s) with
    | Ok c => [EvExec c command]
    | Raise _ => []
    end
  /\ List.filter is_exec (events_of (test_ssh_connection E connection) s) = [].
Proof.
  destruct (open_session_no_exec E connection s) as (evs & Htrace & Hevs).
  unfold events_of. rewrite execute_by_session, test_by_session.
  destruct (open_session E connection s) as [[c | e] s1]; simpl in *.
  - split.
    + destruct (run_on_session_cases E c command s1)
        as [e | io out err _ _ _ _]; simpl;
        rewrite Htrace, <- ?app_assoc, drop_app_length, List.filter_app, Hevs;
        reflexivity.
    + rewrite Htrace, <- app_assoc, drop_app_length, List.filter_app, Hevs.
      reflexivity.
  - rewrite Htrace, drop_app_length. auto.
Qed.

(** ** What [strip] leaves *)

Lemma join_cons (c : string) (r : list string) :
  Text.join (c :: r) = c +:+ Text.join r.
Proof. reflexivity. Qed.

Lemma fresh_well_chunked (cs : list string) :
  Forall (fun x => fresh_chunk x = true) cs -> well_chunked cs.
Proof.
  destruct 1 as [| c r Hc Hr]; simpl; [exact I |].
  apply andb_true_iff in Hc as [Hc _]. auto.
Qed.

Lemma chars_cons (a : ascii) (r : string) :
  Text.chars (String a r)
  = match Text.chars r with
    | c :: cs =>
        if Text.starts_with_continuation c
        then String a c :: cs
        else String a EmptyString :: c :: cs
    | [] => [String a EmptyString]
    end.
Proof. reflexivity. Qed.

Lemma chars_cons_chunk (a : ascii) (t rest : string) :
  all_continuation t = true ->
  match Text.chars rest with
  | c :: _ => Text.starts_with_continuation c = false
  | [] => True
  end ->
  Text.chars (String a (t +:+ rest)) = String a t :: Text.chars rest.
Proof.
  revert a. induction t as [| b t IH]; intros a Ht Hrest.
  - rewrite append_empty_l, chars_cons.
    destruct (Text.chars rest) as [| c cs]; [reflexivity |].
    rewrite Hrest. reflexivity.
  - cbn [all_continuation] in Ht. apply andb_true_iff in Ht as [Hb Ht].
    rewrite append_cons, chars_cons, (IH b Ht Hrest).
    cbn [Text.starts_with_continuation]. rewrite Hb. reflexivity.
Qed.

Lemma chars_join_fresh (cs : list string) :
  Forall (fun x => fresh_chunk x = true) cs -> Text.chars (Text.join cs) = cs.
Proof.
  induction 1 as [| c r Hc Hr IH]; [reflexivity |].
  apply andb_true_iff in Hc as [Hchunk Hstart].
  destruct c as [| a t]; [discriminate |].
  rewrite join_cons, append_cons, chars_cons_chunk, IH; [reflexivity | exact Hchunk |].
  rewrite IH. destruct Hr as [| c' r' Hc' _]; [exact I |].
  apply andb_true_iff in Hc' as [_ Hc']. apply negb_true_iff, Hc'.
Qed.

Lemma chars_join (cs : list string) :
  well_chunked cs -> Text.chars (Text.join cs) = cs.
Proof.
  destruct cs as [| c r]; [reflexivity |]. intros [Hchunk Hr].
  destruct c as [| a t]; [discriminate |].
  rewrite join_cons, append_cons, chars_cons_chunk, (chars_join_fresh r Hr);
    [reflexivity | exact Hchunk |].
  rewrite (chars_join_fresh r Hr). destruct Hr as [| c' r' Hc' _]; [exact I |].
  apply andb_true_iff in Hc' as [_ Hc']. apply negb_true_iff, Hc'.
Qed.

Lemma chars_well_chunked (s : string) : well_chunked (Text.chars s).
Proof.
  induction s as [| a s IH]; [exact I |].
  rewrite chars_cons.
  destruct (Text.chars s) as [| c cs]; [split; [reflexivity | constructor] |].
  destruct IH as [Hc Hcs].
  destruct (Text.starts_with_continuation c) eqn:Hstart.
  - split; [| exact Hcs]. destruct c as [| b t]; [discriminate |].
    simpl in *. rewrite Hstart. exact Hc.
  - split; [reflexivity |]. constructor; [| exact Hcs].
    unfold fresh_chunk. rewrite Hc, Hstart. reflexivity.
Qed.

Lemma drop_spaces_suffix (cs : list string) :
  exists before, cs = before ++ Text.drop_spaces cs.
Proof.
  induction cs as [| c r [before IH]]; [exists []; reflexivity |].
  cbn [Text.drop_spaces]. destruct (Text.is_space c).
  - exists (c :: before). simpl. rewrite <- IH. reflexivity.
  - exists []. reflexivity.
Qed.

Lemma drop_spaces_head (cs : list string) :
  match Text.drop_spaces cs with
  | c :: _ => Text.is_space c = false
  | [] => True
  end.
Proof.
  induction cs as [| c r IH]; [exact I |].
  cbn [Text.drop_spaces]. destruct (Text.is_space c) eqn:Hc; [exact IH | exact Hc].
Qed.

Lemma well_chunked_suffix (before cs : list string) :
  well_chunked (before ++ cs) -> well_chunked cs.
Proof.
  destruct before as [| c before]; [auto |]. simpl. intros [_ H].
  apply Forall_app in H as [_ H]. apply fresh_well_chunked, H.
Qed.

Lemma well_chunked_prefix (cs after : list string) :
  well_chunked (cs ++ after) -> well_chunked cs.
Proof.
  destruct cs as [| c cs]; [intros _; exact I |]. simpl. intros [Hc H].
  apply Forall_app in H as [H _]. auto.
Qed.

(** The characters [strip] keeps: a part of the characters of the text that
    neither begins nor ends with whitespace. *)
Lemma strip_chars (s : string) :
  exists kept,
    Text.chars (Text.strip s) = kept
    /\ match kept with c :: _ => Text.is_space c = false | [] => True end
    /\ match rev kept with c :: _ => Text.is_space c = false | [] => True end.
Proof.
  unfold Text.strip.
  set (front := Text.drop_spaces (Text.chars s)).
  set (back := Text.drop_spaces (rev front)).
  assert (Hfront : well_chunked front).
  { destruct (drop_spaces_suffix (Text.chars s)) as [before Hb].
    apply (well_chunked_suffix before). fold front in Hb. rewrite <- Hb.
    apply chars_well_chunked. }
  destruct (drop_spaces_suffix (rev front)) as [before Hb]. fold back in Hb.
  assert (Hsplit : front = rev back ++ rev before).
  { rewrite <- rev_app_distr, <- Hb, rev_involutive. reflexivity. }
  assert (Hkept : well_chunked (rev back)).
  { apply (well_chunked_prefix _ (rev before)). rewrite <- Hsplit. exact Hfront. }
  exists (rev back). split; [apply chars_join, Hkept |]. split.
  - pose proof (drop_spaces_head (Text.chars s)) as Hhead. fold front in Hhead.
    rewrite Hsplit in Hhead. destruct (rev back); [exact I | exact Hhead].
  - rewrite rev_involutive. apply drop_spaces_head.
Qed.

Lemma execute_success_form E connection command s d :
  fst (execute_ssh_command E connection command s) = Ok d ->
  dict_get d "status" VNone = success_status ->
  exists out err, d = execute_success out err.
Proof.
  rewrite execute_by_session.
  destruct (open_session E connection s) as [[c | e] s1]; simpl.
  - destruct (run_on_session_cases E c command s1)
      as [e | io out err _ _ _ _]; simpl; intros H Hs; inversion H; subst d.
    + discriminate Hs.
    + eauto.
  - intros H Hs. inversion H. subst d. discriminate Hs.
Qed.

(** X18: in an answer of [execute_ssh_command] with status "success", the
    texts under "output" and "error" neither begin nor end with a whitespace
    character; the line break a command writes at the end of its output is
    never part of the answer. *)
Theorem output_is_trimmed (E : Env) (connection : SSHConnection)
    (command : string) (s : State) (d : dict) :
  fst (execute_ssh_command E connection command s) = Ok d ->
  dict_get d "status" VNone = success_status ->
  exists output error,
    dict_get d "output" VNone = VStr output
    /\ dict_get d "error" VNone = VStr error
    /\ starts_with_space output = false /\ ends_with_space output = false
    /\ starts_with_space error = false /\ ends_with_space error = false.
Proof.
  intros Hrun Hstatus.
  destruct (execute_success_form _ _ _ _ _ Hrun Hstatus) as (out & err & ->).
  exists (Text.strip out), (Text.strip err).
  split; [reflexivity |]. split; [reflexivity |].
  unfold starts_with_space, ends_with_space.
  destruct (strip_chars out) as (ko & -> & Ho1 & Ho2).
  destruct (strip_chars err) as (ke & -> & He1 & He2).
  repeat split.
  - destruct ko; auto.
  - destruct (rev ko); auto.
  - destruct ke; auto.
  - destruct (rev ke); auto.
Qed.

Lemma output_is_trimmed_witness :
  fst (execute_ssh_command lab test_connection "echo hello" init)
  = Ok [("status", VStr "success"); ("output", VStr "hello"); ("error", VStr "")]
  /\ exists output error,
       dict_get [("status", VStr "success"); ("output", VStr "hello");
                 ("error", VStr "")] "output" VNone = VStr output
       /\ dict_get [("status", VStr "success"); ("output", VStr "hello");
                    ("error", VStr "")] "error" VNone = VStr error
       /\ starts_with_space output = false /\ ends_with_space output = false
       /\ starts_with_space error = false /\ ends_with_space error = false.
Proof.
  split; [reflexivity |].
  apply (output_is_trimmed lab test_connection "echo hello" init); reflexivity.
Defined.

(** ** The coroutines with and without the class test agree *)

Lemma except_agrees {A} (body : M A) (handler : Exn -> M A) (s : State) :
  polite body -> except_Exception body handler s = try_except body handler s.
Proof.
  intros Hbody. unfold except_Exception, try_except.
  destruct (body s) as [[a | e] s'] eqn:H; [reflexivity |].
  rewrite (Hbody _ _ _ H). reflexivity.
Qed.

Lemma polite_ret {A} (a : A) : polite (ret a).
Proof. intros s e s' H. discriminate H. Qed.

Lemma polite_lift {A} (r : result A) :
  (forall e, r = Raise e -> derives_from_Exception e = true) -> polite (lift r).
Proof. intros Hr s e s' H. inversion H. auto. Qed.

Lemma polite_bind_with {A B} (P : A -> Prop) (m : M A) (k : A -> M B) :
  polite m -> (forall s a s', m s = (Ok a, s') -> P a) ->
  (forall a, P a -> polite (k a)) -> polite (bind m k).
Proof.
  intros Hm HP Hk s e s'. unfold bind.
  destruct (m s) as [[a | e0] s1] eqn:H.
  - apply (Hk a (HP _ _ _ H)).
  - intros Heq. inversion Heq. subst. apply (Hm _ _ _ H).
Qed.

Lemma polite_bind {A B} (m : M A) (k : A -> M B) :
  polite m -> (forall a, polite (k a)) -> polite (bind m k).
Proof.
  intros Hm Hk. apply (polite_bind_with (fun _ => True)); auto.
Qed.

Lemma polite_if {A} (b : bool) (m1 m2 : M A) :
  polite m1 -> polite m2 -> polite (if b then m1 else m2).
Proof. destruct b; auto. Qed.

Lemma polite_except {A} (body : M A) (handler : Exn -> M A) :
  polite body -> (forall e, polite (handler e)) ->
  polite (except_Exception body handler).
Proof.
  intros Hbody Hh s e s'. unfold except_Exception.
  destruct (body s) as [[a | e0] s1] eqn:H; [discriminate |].
  destruct (derives_from_Exception e0) eqn:He0.
  - apply Hh.
  - rewrite (Hbody _ _ _ H) in He0. discriminate.
Qed.

Lemma polite_logger_error text : polite (logger_error text).
Proof. intros s e s' H. discriminate H. Qed.

Lemma polite_getenv E name : polite (os_getenv E name).
Proof. intros s e s' H. discriminate H. Qed.

Lemma polite_new_client : polite SSHClient_new.
Proof. intros s e s' H. discriminate H. Qed.

Lemma polite_policy c : polite (set_missing_host_key_policy c).
Proof. apply polite_ret. Qed.

Lemma polite_close c : polite (SSHClient_close c).
Proof. intros s e s' H. discriminate H. Qed.

Lemma polite_py_get v k default :
  polite (lift (py_get v k default)).
Proof.
  apply polite_lift. destruct v; intros e H; inversion H; reflexivity.
Qed.

Lemma polite_py_last v : polite (lift (py_last v)).
Proof.
  apply polite_lift. intros e. destruct v as [| b | n | t | l | d]; simpl;
    try (intros H; inversion H; reflexivity).
  - destruct (last (Text.chars t)); intros H; inversion H; reflexivity.
  - destruct (last l); intros H; inversion H; reflexivity.
Qed.

Lemma polite_py_lower v : polite (lift (py_lower v)).
Proof.
  apply polite_lift. destruct v; intros e H; inversion H; reflexivity.
Qed.

Lemma polite_py_split v sep : polite (lift (py_split_second_strip v sep)).
Proof.
  apply polite_lift. intros e. destruct v as [| b | n | t | l | d]; simpl;
    try (intros H; inversion H; reflexivity).
  destruct (Text.split sep t) as [| p0 [| p1 ps]];
    intros H; inversion H; reflexivity.
Qed.

Lemma polite_append_message body m : polite (lift (append_message body m)).
Proof.
  apply polite_lift. intros e. unfold append_message.
  destruct (dict_has body "messages"); [| intros H; inversion H; reflexivity].
  destruct (dict_get body "messages" VNone);
    intros H; inversion H; reflexivity.
Qed.

Section PoliteWorld.

Variable E : Env.
Hypothesis HE : raises_Exception_only E.

Lemma polite_gethostbyname : polite (socket_gethostbyname_hostname E).
Proof.
  intros s e s' H. inversion H. eapply polite_resolve; eauto.
Qed.

Lemma polite_requests_get url tmo : polite (requests_get_json E url tmo).
Proof.
  intros s e s' H. inversion H. eapply polite_http; eauto.
Qed.

Lemma polite_load_key_file path : polite (RSAKey_from_private_key_file E path).
Proof.
  intros s e s' H. inversion H. eapply polite_load_key; eauto.
Qed.

Lemma polite_client_connect c h p u a tmo :
  polite (SSHClient_connect E c h p u a tmo).
Proof.
  intros s e s'. unfold SSHClient_connect.
  destruct (ssh_connect E (trace s) h p u a tmo) as [| e0 started] eqn:Hc;
    [discriminate |].
  intros H. inversion H. subst. eapply polite_connect; eauto.
Qed.

Lemma polite_exec_command c command :
  polite (SSHClient_exec_command E c command).
Proof.
  intros s e s'. unfold SSHClient_exec_command.
  destruct (transport_of <$> clients s !! c) as [[| |] |];
    try (intros H; inversion H; reflexivity).
  intros H. inversion H. eapply polite_exec; eauto.
Qed.

Lemma exec_command_streams c command s io s' :
  SSHClient_exec_command E c command s = (Ok io, s') -> polite_streams io.
Proof.
  unfold SSHClient_exec_command.
  destruct (transport_of <$> clients s !! c) as [[| |] |]; try discriminate.
  intros H. inversion H. eapply polite_exec_streams; eauto.
Qed.

Lemma polite_read_decode (r : result (list byte)) :
  (forall e, r = Raise e -> derives_from_Exception e = true) ->
  polite (lift (read_decode E r)).
Proof.
  intros Hr. apply polite_lift. intros e. unfold read_decode.
  destruct r as [b | e0].
  - destruct (Text.utf8_valid _); intros H; inversion H; reflexivity.
  - intros H. inversion H. subst. auto.
Qed.

Lemma polite_get_ip_info_body : polite (get_ip_info_body E).
Proof.
  unfold get_ip_info_body.
  apply polite_bind; [apply polite_gethostbyname | intros ip].
  apply polite_bind; [apply polite_requests_get | intros response].
  apply polite_bind; [apply polite_py_get | intros public].
  apply polite_ret.
Qed.

Lemma polite_connect_client c connection : polite (connect_client E c connection).
Proof.
  unfold connect_client.
  destruct (private_key connection) as [path |];
    [destruct (truthy (VStr path)) |];
    try apply polite_client_connect.
  apply polite_bind; [apply polite_load_key_file | intros key].
  apply polite_client_connect.
Qed.

Lemma polite_test_body connection : polite (test_ssh_connection_body E connection).
Proof.
  unfold test_ssh_connection_body.
  apply polite_bind; [apply polite_new_client | intros c].
  apply polite_bind; [apply polite_policy | intros _].
  apply polite_bind; [apply polite_connect_client | intros _].
  apply polite_bind; [apply polite_close | intros _].
  apply polite_ret.
Qed.

Lemma polite_execute_body connection command :
  polite (execute_ssh_command_body E connection command).
Proof.
  unfold execute_ssh_command_body.
  apply polite_bind; [apply polite_new_client | intros c].
  apply polite_bind; [apply polite_policy | intros _].
  apply polite_bind; [apply polite_connect_client | intros _].
  apply (polite_bind_with polite_streams);
    [apply polite_exec_command | apply exec_command_streams |].
  intros io [Hout Herr].
  apply polite_bind; [apply polite_read_decode, Hout | intros out].
  cbv zeta.
  apply polite_bind; [apply polite_read_decode, Herr | intros err].
  apply polite_bind; [apply polite_close | intros _].
  apply polite_ret.
Qed.

Lemma guarded_get_ip_info_agrees s :
  Guarded.get_ip_info E s = get_ip_info E s.
Proof. apply except_agrees, polite_get_ip_info_body. Qed.

Lemma guarded_test_agrees connection s :
  Guarded.test_ssh_connection E connection s = test_ssh_connection E connection s.
Proof. apply except_agrees, polite_test_body. Qed.

Lemma guarded_execute_agrees connection command s :
  Guarded.execute_ssh_command E connection command s
  = execute_ssh_command E connection command s.
Proof. apply except_agrees, polite_execute_body. Qed.

Lemma polite_returning {A} (m : M A) :
  (forall s, exists a s', m s = (Ok a, s')) -> polite m.
Proof.
  intros Hm s e s' H. destruct (Hm s) as (a & s1 & Hs). congruence.
Qed.

Lemma polite_guarded_get_ip_info : polite (Guarded.get_ip_info E).
Proof.
  apply polite_returning. intros s. rewrite guarded_get_ip_info_agrees.
  destruct (get_ip_info_run E s) as (d & evs & H & _). eauto.
Qed.

Lemma polite_guarded_test connection :
  polite (Guarded.test_ssh_connection E connection).
Proof.
  apply polite_returning. intros s. rewrite guarded_test_agrees.
  apply test_returns.
Qed.

Lemma polite_guarded_execute connection command :
  polite (Guarded.execute_ssh_command E connection command).
Proof.
  apply polite_returning. intros s. rewrite guarded_execute_agrees.
  apply execute_returns.
Qed.

Lemma polite_pipe_body body : polite (Guarded.pipe_body E body).
Proof.
  unfold Guarded.pipe_body. cbv zeta.
  apply polite_if; [apply polite_ret |].
  apply polite_bind; [apply polite_py_last | intros last_message].
  apply polite_bind; [apply polite_py_get | intros content].
  apply polite_bind; [apply polite_py_lower | intros lowered].
  apply polite_if.
  - apply polite_bind; [apply polite_guarded_get_ip_info | intros ip_info].
    apply polite_append_message.
  - apply polite_if; [| apply polite_ret].
    apply polite_bind; [apply polite_getenv | intros ssh_host].
    apply polite_bind; [apply polite_getenv | intros ssh_user].
    apply polite_bind; [apply polite_getenv | intros ssh_pass].
    apply polite_bind; [| intros result; apply polite_append_message].
    apply polite_if; [apply polite_guarded_test |].
    apply polite_bind; [apply polite_py_split | intros command].
    apply polite_guarded_execute.
Qed.

Lemma pipe_body_agrees body s :
  try_except (Guarded.pipe_body E body)
    (fun e =>
       bind (logger_error ("Pipe error: " +:+ str_exn e))
         (fun _ => ret [("error", VStr (str_exn e))])) s
  = pipe E body s.
Proof.
  unfold pipe, Guarded.pipe_body, try_except, bind, lift, os_getenv.
  cbv zeta.
  destruct (negb (truthy (dict_get body "messages" (VList []))));
    [reflexivity |].
  destruct (py_last (dict_get body "messages" (VList []))) as [last_message | e];
    [| reflexivity].
  destruct (py_get last_message "content" (VStr "")) as [content | e];
    [| reflexivity].
  destruct (py_lower content) as [lowered | e]; [| reflexivity].
  destruct (Text.contains "ip" lowered).
  - rewrite guarded_get_ip_info_agrees. reflexivity.
  - destruct (Text.contains "ssh" lowered); [| reflexivity].
    destruct (Text.contains "test" lowered).
    + rewrite guarded_test_agrees. reflexivity.
    + destruct (py_split_second_strip content "ssh") as [command | e];
        [| reflexivity].
      rewrite guarded_execute_agrees. reflexivity.
Qed.

(** In a world whose library calls raise nothing outside [Exception], each
    coroutine with the class test in its handler does exactly what the one
    without it does. *)
Lemma guarded_agrees (s : State) :
  Guarded.get_ip_info E s = get_ip_info E s
  /\ (forall connection,
        Guarded.test_ssh_connection E connection s
        = test_ssh_connection E connection s)
  /\ (forall connection command,
        Guarded.execute_ssh_command E connection command s
        = execute_ssh_command E connection command s)
  /\ (forall body, Guarded.pipe E body s = pipe E body s).
Proof.
  split; [apply guarded_get_ip_info_agrees |].
  split; [intros; apply guarded_test_agrees |].
  split; [intros; apply guarded_execute_agrees |].
  intros body. unfold Guarded.pipe.
  rewrite (except_agrees _ _ _ (polite_pipe_body body)).
  apply pipe_body_agrees.
Qed.

End PoliteWorld.

(** The sample world [lab] is such a world. *)
Example lab_raises_Exception_only : raises_Exception_only lab.
Proof.
  split; simpl; try discriminate.
  intros _ command io H. inversion H. subst io. unfold remote_shell.
  repeat match goal with
    | |- context [String.eqb ?a ?b] => destruct (String.eqb a b)
    end; split; simpl; discriminate.
Qed.

(** * Properties of [example_filter_function.py] *)

(** ** Dictionaries *)

Lemma dict_set_keys (d : dict) (k : string) (v : value) :
  dict_has d k = true -> List.map fst (dict_set d k v) = List.map fst d.
Proof.
  induction d as [| [k' v'] d IH]; simpl; [discriminate |].
  destruct (String.eqb k' k); simpl; [reflexivity |].
  intros H. rewrite (IH H). reflexivity.
Qed.

Lemma dict_get_set_same (d : dict) (k : string) (v default : value) :
  dict_get (dict_set d k v) k default = v.
Proof.
  induction d as [| [k' v'] d IH]; simpl.
  - rewrite String.eqb_refl. reflexivity.
  - destruct (String.eqb k' k) eqn:Hk; simpl; rewrite Hk; [reflexivity | exact IH].
Qed.

Lemma dict_get_set_other (d : dict) (k k' : string) (v default : value) :
  k' <> k -> dict_get (dict_set d k v) k' default = dict_get d k' default.
Proof.
  intros Hne. induction d as [| [k0 v0] d IH]; simpl.
  - apply String.eqb_neq in Hne. rewrite String.eqb_sym, Hne. reflexivity.
  - destruct (String.eqb k0 k) eqn:Hk; simpl.
    + apply String.eqb_eq in Hk. subst k0.
      apply String.eqb_neq in Hne. rewrite String.eqb_sym, Hne. reflexivity.
    + rewrite IH. reflexivity.
Qed.

Lemma dict_has_set (d : dict) (k : string) (v : value) :
  dict_has (dict_set d k v) k = true.
Proof.
  induction d as [| [k' v'] d IH]; simpl.
  - rewrite String.eqb_refl. reflexivity.
  - destruct (String.eqb k' k) eqn:Hk; simpl; rewrite Hk; [reflexivity | exact IH].
Qed.

Lemma dict_has_set_other (d : dict) (k k' : string) (v : value) :
  k' <> k -> dict_has (dict_set d k v) k' = dict_has d k'.
Proof.
  intros Hne. induction d as [| [k0 v0] d IH]; simpl.
  - apply String.eqb_neq in Hne. rewrite String.eqb_sym, Hne. reflexivity.
  - destruct (String.eqb k0 k) eqn:Hk; simpl; [reflexivity |].
    rewrite IH. reflexivity.
Qed.

Lemma dict_set_set (d : dict) (k : string) (v v' : value) :
  dict_set (dict_set d k v) k v' = dict_set d k v'.
Proof.
  induction d as [| [k' v0] d IH]; simpl.
  - rewrite String.eqb_refl. reflexivity.
  - destruct (String.eqb k' k) eqn:Hk; simpl; rewrite Hk;
      [reflexivity | rewrite IH; reflexivity].
Qed.

Lemma dict_get_has (d : dict) (k : string) (v : value) :
  dict_get d k VNone = v -> v <> VNone -> dict_has d k = true.
Proof. intros Hget Hne. exact (proj1 (dict_get_found d k VNone v Hget Hne)). Qed.

Lemma append_assoc (a b c : string) : (a +:+ b) +:+ c = a +:+ b +:+ c.
Proof.
  induction a as [| x a IH]; [reflexivity |].
  rewrite !append_cons, IH. reflexivity.
Qed.

(** ** The three hooks *)

(** What all three do to a dictionary: the "content" entry, when there is
    one, gets a new value. *)
Lemma replaced_keeps_entries (d : dict) (v : value) :
  let d' := if dict_has d "content" then dict_set d "content" v else d in
  List.map fst d' = List.map fst d
  /\ (forall k default, k <> "content" ->
        dict_get d' k default = dict_get d k default)
  /\ (forall k, dict_has d' k = dict_has d k).
Proof.
  cbv zeta. destruct (dict_has d "content") eqn:Hhas; [| auto].
  split; [apply dict_set_keys, Hhas |]. split.
  - intros k default Hk. apply dict_get_set_other, Hk.
  - intros k. destruct (String.eqb_spec k "content") as [-> | Hk].
    + rewrite dict_has_set, Hhas. reflexivity.
    + apply dict_has_set_other, Hk.
Qed.

(** X19: [inlet], [stream] and [outlet] keep the shape of their argument:
    the same keys in the same order, every entry other than "content" with
    the value it had, and no "content" entry where there was none. *)
Theorem filter_keeps_entries (repr : value -> string)
    (self : FilterFunction.Filter) (d : dict) :
  (List.map fst (fst (FilterFunction.inlet repr self d)) = List.map fst d
   /\ (forall k default, k <> "content" ->
         dict_get (fst (FilterFunction.inlet repr self d)) k default
         = dict_get d k default)
   /\ (forall k, dict_has (fst (FilterFunction.inlet repr self d)) k
                 = dict_has d k))
  /\ (List.map fst (fst (FilterFunction.stream repr self d)) = List.map fst d
      /\ (forall k default, k <> "content" ->
            dict_get (fst (FilterFunction.stream repr self d)) k default
            = dict_get d k default)
      /\ (forall k, dict_has (fst (FilterFunction.stream repr self d)) k
                    = dict_has d k))
  /\ (List.map fst (fst (FilterFunction.outlet repr self d)) = List.map fst d
      /\ (forall k default, k <> "content" ->
            dict_get (fst (FilterFunction.outlet repr self d)) k default
            = dict_get d k default)
      /\ (forall k, dict_has (fst (FilterFunction.outlet repr self d)) k
                    = dict_has d k)).
Proof.
  unfold FilterFunction.inlet, FilterFunction.stream, FilterFunction.outlet.
  cbv zeta.
  split; [| split];
    match goal with
    | |- context [dict_set d "content" ?v] =>
        pose proof (replaced_keeps_entries d v) as H
    end;
    cbv zeta in H; destruct (dict_has d "content"); exact H.
Qed.

(** X20: a dictionary without a "content" entry comes back from each of
    the three exactly as it went in; the call is still logged. *)
Theorem filter_without_content (repr : value -> string)
    (self : FilterFunction.Filter) (d : dict) :
  dict_has d "content" = false ->
  FilterFunction.inlet repr self d
  = (d, [FilterFunction.LogInfo
           ("Intercepting user input: " +:+ repr (VDict d))])
  /\ FilterFunction.stream repr self d
     = (d, [FilterFunction.LogInfo
              ("Intercepting stream chunk: " +:+ repr (VDict d))])
  /\ FilterFunction.outlet repr self d
     = (d, [FilterFunction.LogInfo
              ("Intercepting final response: " +:+ repr (VDict d))]).
Proof.
  intros Hhas.
  unfold FilterFunction.inlet, FilterFunction.stream, FilterFunction.outlet.
  cbv zeta. rewrite Hhas. auto.
Qed.

Lemma filter_without_content_witness :
  fst (FilterFunction.inlet sample_repr FilterFunction.default_filter empty_delta)
  = empty_delta
  /\ fst (FilterFunction.stream sample_repr FilterFunction.default_filter empty_delta)
     = empty_delta
  /\ fst (FilterFunction.outlet sample_repr FilterFunction.default_filter empty_delta)
     = empty_delta.
Proof.
  destruct (filter_without_content sample_repr FilterFunction.default_filter
              empty_delta eq_refl) as (H1 & H2 & H3).
  rewrite H1, H2, H3. auto.
Defined.

(** X21: a "content" entry of any JSON value is replaced by a text: the
    value as [str] writes it, with "[Filtered] " before it ([inlet]),
    " [Stream Filtered]" after it ([stream]), or a line break and
    "[Filtered Response]" after it ([outlet]).  A content that was null
    becomes the text "None" with its decoration. *)
Theorem filter_decorates (repr : value -> string)
    (self : FilterFunction.Filter) (d : dict) (default : value) :
  dict_has d "content" = true ->
  dict_get (fst (FilterFunction.inlet repr self d)) "content" default
  = VStr ("[Filtered] "
          +:+ FilterFunction.format_value repr (dict_get d "content" VNone))
  /\ dict_get (fst (FilterFunction.stream repr self d)) "content" default
     = VStr (FilterFunction.format_value repr (dict_get d "content" VNone)
             +:+ " [Stream Filtered]")
  /\ dict_get (fst (FilterFunction.outlet repr self d)) "content" default
     = VStr (FilterFunction.format_value repr (dict_get d "content" VNone)
             +:+ FilterFunction.newline +:+ "[Filtered Response]").
Proof.
  intros Hhas.
  unfold FilterFunction.inlet, FilterFunction.stream, FilterFunction.outlet.
  cbv zeta. rewrite Hhas. simpl. rewrite !dict_get_set_same. auto.
Qed.

Lemma filter_decorates_witness :
  dict_get (fst (FilterFunction.inlet sample_repr FilterFunction.default_filter
                   null_content)) "content" VNone
  = VStr "[Filtered] None"
  /\ dict_get (fst (FilterFunction.stream sample_repr FilterFunction.default_filter
                      null_content)) "content" VNone
     = VStr "None [Stream Filtered]"
  /\ dict_get (fst (FilterFunction.outlet sample_repr FilterFunction.default_filter
                      null_content)) "content" VNone
     = VStr ("None" +:+ FilterFunction.newline +:+ "[Filtered Response]").
Proof.
  exact (filter_decorates sample_repr FilterFunction.default_filter
           null_content VNone eq_refl).
Defined.

(** X22: a message with a text as content, taken through [inlet], [stream]
    and [outlet] in turn, is the message with the content
    "[Filtered] <text> [Stream Filtered]", a line break and
    "[Filtered Response]"; nothing else has changed. *)
Theorem filter_through_all (repr : value -> string)
    (self : FilterFunction.Filter) (d : dict) (text : string) :
  dict_get d "content" VNone = VStr text ->
  FilterFunction.through_all repr self d
  = dict_set d "content"
      (VStr ("[Filtered] " +:+ text +:+ " [Stream Filtered]"
             +:+ FilterFunction.newline +:+ "[Filtered Response]")).
Proof.
  intros Hcontent.
  assert (Hhas : dict_has d "content" = true).
  { apply (dict_get_has _ _ _ Hcontent). discriminate. }
  unfold FilterFunction.through_all, FilterFunction.inlet,
    FilterFunction.stream, FilterFunction.outlet.
  cbv zeta. rewrite Hhas, Hcontent. cbn [fst FilterFunction.format_value].
  rewrite dict_has_set, dict_get_set_same. cbn [fst FilterFunction.format_value].
  rewrite dict_has_set, dict_get_set_same. cbn [fst FilterFunction.format_value].
  rewrite !dict_set_set, !append_assoc. reflexivity.
Qed.

Lemma filter_through_all_witness :
  FilterFunction.through_all sample_repr FilterFunction.default_filter
    hello_message
  = [("role", VStr "user");
     ("content",
      VStr ("[Filtered] Hello, world! [Stream Filtered]"
            +:+ FilterFunction.newline +:+ "[Filtered Response]"))].
Proof.
  exact (filter_through_all sample_repr FilterFunction.default_filter
           hello_message "Hello, world!" eq_refl).
Defined.

(** X23: [inlet] is not idempotent.  Applied [n] times to a message with a
    text as content it puts "[Filtered] " before the text [n] times. *)
Theorem inlet_repeated (repr : value -> string)
    (self : FilterFunction.Filter) (d : dict) (text : string) (n : nat) :
  dict_get d "content" VNone = VStr text ->
  dict_get
    (Nat.iter n (fun m => fst (FilterFunction.inlet repr self m)) d)
    "content" VNone
  = VStr (Nat.iter n (String.append "[Filtered] ") text).
Proof.
  intros Hcontent. induction n as [| n IH]; [exact Hcontent |].
  rewrite !Nat.iter_succ.
  set (m := Nat.iter n (fun m => fst (FilterFunction.inlet repr self m)) d) in *.
  assert (Hhas : dict_has m "content" = true).
  { apply (dict_get_has _ _ _ IH). discriminate. }
  unfold FilterFunction.inlet. cbv zeta. rewrite Hhas, IH.
  cbn [fst FilterFunction.format_value]. apply dict_get_set_same.
Qed.

Lemma inlet_repeated_witness :
  dict_get
    (Nat.iter 2
       (fun m => fst (FilterFunction.inlet sample_repr
                        FilterFunction.default_filter m))
       hello_message)
    "content" VNone
  = VStr "[Filtered] [Filtered] Hello, world!".
Proof.
  exact (inlet_repeated sample_repr FilterFunction.default_filter
           hello_message "Hello, world!" 2 eq_refl).
Defined.
